(** * Activation steering engine: a shallow embedding of [aig/steering.py],
      [aig/integrations/casteer_integration.py] and
      [aig/integrations/hspace_integration.py].

    The Python code works on numpy arrays of float64.  The embedding is
    generic in the scalar type (class [Scalar]); its instance [float]
    (binary64, [PrimFloat]) is the code's own arithmetic, and the functions
    are run on concrete inputs there.
    A Python exception is a [Raise] result; methods that mutate [self]
    return the new object. *)

From Stdlib Require Import PrimFloat.
From Stdlib Require FloatAxioms SpecFloat FloatOps.
From Stdlib Require Import String Ascii.
From Stdlib Require Import List Bool Arith ZArith Lia.
Import ListNotations.

Set Implicit Arguments.
Set Warnings "-inexact-float".

(* ------------------------------------------------------------------ *)
(** ** Python results *)

Inductive exn : Type :=
| ValueError      (* shapes that do not broadcast, unknown enum value *)
| IndexError      (* [shape[-1]] of a 0-d array *)
| AxisError       (* [axis=-1] on a 0-d array *)
| UnpicklingError (* [pickle.load] on a file that holds no pickle *).

Inductive result (T : Type) : Type :=
| Ok (v : T)
| Raise (e : exn).

Arguments Ok {T} v.
Arguments Raise {T} e.

Definition bind {T U : Type} (r : result T) (k : T -> result U) : result U :=
  match r with
  | Ok v => k v
  | Raise e => Raise e
  end.

Notation "x <- r ;; k" := (bind r (fun x => k))
  (at level 61, r at next level, right associativity).

Definition raises {T : Type} (r : result T) : bool :=
  match r with Ok _ => false | Raise _ => true end.

(* ------------------------------------------------------------------ *)
(** ** Scalars *)

Class Scalar (A : Type) : Type := {
  fzero : A;                 (* 0 *)
  fone  : A;                 (* 1.0 *)
  ftwo  : A;                 (* 2.0 *)
  ften  : A;                 (* 10.0 *)
  feps  : A;                 (* the literal 1e-8 *)
  fadd  : A -> A -> A;
  fsub  : A -> A -> A;
  fmul  : A -> A -> A;
  fdiv  : A -> A -> A;
  fneg  : A -> A;
  fabs  : A -> A;
  fsqrt : A -> A;
  fleb  : A -> A -> bool;    (* x <= y *)
  fltb  : A -> A -> bool     (* x < y *)
}.

#[export] Instance float_Scalar : Scalar float := {
  fzero := 0%float;
  fone  := 1%float;
  ftwo  := 2%float;
  ften  := 10%float;
  feps  := 0x1.5798ee2308c3ap-27%float;   (* binary64 nearest to 1e-8 *)
  fadd  := PrimFloat.add;
  fsub  := PrimFloat.sub;
  fmul  := PrimFloat.mul;
  fdiv  := PrimFloat.div;
  fneg  := PrimFloat.opp;
  fabs  := PrimFloat.abs;
  fsqrt := PrimFloat.sqrt;
  fleb  := PrimFloat.leb;
  fltb  := PrimFloat.ltb
}.

(* ------------------------------------------------------------------ *)
(** ** The numpy fragment the code uses

    An array is its shape and its elements in row-major (C) order. *)

Record ndarray (A : Type) : Type := mk_ndarray {
  shape : list nat;
  data  : list A
}.

Definition size_of (sh : list nat) : nat := fold_right Nat.mul 1 sh.

Definition wf_ndarray {A : Type} (a : ndarray A) : bool :=
  length (data a) =? size_of (shape a).

Definition ndim {A : Type} (a : ndarray A) : nat := length (shape a).

(** [sh[-1]]: the trailing dimension; IndexError on the empty tuple. *)
Definition shape_last (sh : list nat) : result nat :=
  match rev sh with
  | [] => Raise IndexError
  | d :: _ => Ok d
  end.

(** [n] consecutive rows of [k] elements each. *)
Fixpoint chunks {A : Type} (k n : nat) (l : list A) : list (list A) :=
  match n with
  | O => []
  | S n' => firstn k l :: chunks k n' (skipn k l)
  end.

Fixpoint map2 {A B C : Type} (f : A -> B -> C) (l : list A) (m : list B)
  : list C :=
  match l, m with
  | x :: l', y :: m' => f x y :: map2 f l' m'
  | _, _ => []
  end.

(** Shapes are aligned on the right; a missing or 1 dimension stretches. *)
Fixpoint broadcast_rev (s t : list nat) : option (list nat) :=
  match s, t with
  | [], _ => Some t
  | _, [] => Some s
  | a :: s', b :: t' =>
      match broadcast_rev s' t' with
      | None => None
      | Some r =>
          if a =? b then Some (a :: r)
          else if a =? 1 then Some (b :: r)
          else if b =? 1 then Some (a :: r)
          else None
      end
  end.

Definition broadcast_shapes (s t : list nat) : option (list nat) :=
  option_map (@rev nat) (broadcast_rev (rev s) (rev t)).

Fixpoint shape_eqb (s t : list nat) : bool :=
  match s, t with
  | [], [] => true
  | a :: s', b :: t' => (a =? b) && shape_eqb s' t'
  | _, _ => false
  end.

(** Left-pad a shape with 1s up to [n] dimensions. *)
Definition pad_shape (n : nat) (s : list nat) : list nat :=
  repeat 1 (n - length s) ++ s.

(** Elements of an array of shape [s] stretched to shape [t] (same number of
    dimensions, every dimension of [s] equal to that of [t] or 1). *)
Fixpoint expand {A : Type} (s t : list nat) (l : list A) : list A :=
  match s, t with
  | ds :: s', dt :: t' =>
      if ds =? dt
      then concat (map (expand s' t') (chunks (size_of s') ds l))
      else concat (repeat (expand s' t' l) dt)
  | _, _ => l
  end.

Definition stretch {A : Type} (a : ndarray A) (t : list nat) : list A :=
  expand (pad_shape (length t) (shape a)) t (data a).

Section Numpy.
Context {A : Type} `{Scalar A}.

(** [np.broadcast_to(a, t)] *)
Definition broadcast_to (a : ndarray A) (t : list nat) : result (ndarray A) :=
  match broadcast_shapes (shape a) t with
  | Some r =>
      if shape_eqb r t
      then Ok (mk_ndarray t (stretch a t))
      else Raise ValueError
  | None => Raise ValueError
  end.

(** An elementwise binary operator on two arrays. *)
Definition nd_binop (f : A -> A -> A) (a b : ndarray A) : result (ndarray A) :=
  match broadcast_shapes (shape a) (shape b) with
  | Some r => Ok (mk_ndarray r (map2 f (stretch a r) (stretch b r)))
  | None => Raise ValueError
  end.

Definition nd_add := nd_binop fadd.
Definition nd_sub := nd_binop fsub.
Definition nd_mul := nd_binop fmul.
Definition nd_div := nd_binop fdiv.

(** An array and a Python or numpy scalar. *)
Definition nd_map (f : A -> A) (a : ndarray A) : ndarray A :=
  mk_ndarray (shape a) (map f (data a)).

Definition scalar_mul (c : A) (a : ndarray A) : ndarray A :=
  nd_map (fmul c) a.
Definition div_scalar (a : ndarray A) (c : A) : ndarray A :=
  nd_map (fun x => fdiv x c) a.
Definition add_scalar (a : ndarray A) (c : A) : ndarray A :=
  nd_map (fun x => fadd x c) a.

(** A reduction by [+] starts from the first element. *)
Definition fsum (l : list A) : A :=
  match l with
  | [] => fzero
  | x :: r => fold_left fadd r x
  end.

Definition l2 (l : list A) : A := fsqrt (fsum (map (fun x => fmul x x) l)).

(** [np.linalg.norm(a)]: the 2-norm of the flattened array. *)
Definition norm (a : ndarray A) : A := l2 (data a).

(** The rows along the last axis. *)
Definition rows (a : ndarray A) : list (list A) :=
  chunks (last (shape a) 0) (size_of (removelast (shape a))) (data a).

Definition reduce_last (f : list A -> A) (a : ndarray A) : result (ndarray A) :=
  match shape a with
  | [] => Raise AxisError
  | _ :: _ => Ok (mk_ndarray (removelast (shape a) ++ [1]) (map f (rows a)))
  end.

(** [np.linalg.norm(a, axis=-1, keepdims=True)] *)
Definition norm_last := reduce_last l2.

(** [np.sum(a, axis=-1, keepdims=True)] *)
Definition sum_last := reduce_last fsum.

(** The array of shape [outer ++ [d]] with the given rows, and what makes a
    list of rows fit that shape. *)
Definition of_rows (outer : list nat) (d : nat) (rs : list (list A))
  : ndarray A :=
  mk_ndarray (outer ++ [d]) (concat rs).

Definition row_list (outer : list nat) (d : nat) (rs : list (list A)) : Prop :=
  length rs = size_of outer /\ Forall (fun r => length r = d) rs.

End Numpy.

(* ------------------------------------------------------------------ *)
(** ** Python dictionaries and lists

    A [dict] keeps its keys in insertion order; assigning to a key that is
    present keeps the key's position. *)

Section Dict.
Context {V : Type}.

Definition dict : Type := list (string * V).

Fixpoint dict_get (k : string) (d : dict) : option V :=
  match d with
  | [] => None
  | (k', v) :: d' => if String.eqb k k' then Some v else dict_get k d'
  end.

Definition dict_mem (k : string) (d : dict) : bool :=
  match dict_get k d with Some _ => true | None => false end.

Fixpoint dict_set (k : string) (v : V) (d : dict) : dict :=
  match d with
  | [] => [(k, v)]
  | (k', v') :: d' =>
      if String.eqb k k' then (k, v) :: d' else (k', v') :: dict_set k v d'
  end.

Fixpoint dict_del (k : string) (d : dict) : dict :=
  match d with
  | [] => []
  | (k', v') :: d' =>
      if String.eqb k k' then d' else (k', v') :: dict_del k d'
  end.

Definition dict_keys (d : dict) : list string := map fst d.
End Dict.

Arguments dict V : clear implicits.

(** [x in l] and [l.remove(x)] on a list of names. *)
Fixpoint mem (x : string) (l : list string) : bool :=
  match l with
  | [] => false
  | y :: l' => String.eqb x y || mem x l'
  end.

Fixpoint remove_first (x : string) (l : list string) : list string :=
  match l with
  | [] => []
  | y :: l' => if String.eqb x y then l' else y :: remove_first x l'
  end.

(* ------------------------------------------------------------------ *)
(** ** [steering.py] *)

Inductive SteeringStrategy : Type := ADDITIVE | PROJECTION | HSPACE.

(** [SteeringStrategy(value)]: lookup of an enum member by its value. *)
Definition SteeringStrategy_of_value (s : string) : result SteeringStrategy :=
  if String.eqb s "additive" then Ok ADDITIVE
  else if String.eqb s "projection" then Ok PROJECTION
  else if String.eqb s "hspace" then Ok HSPACE
  else Raise ValueError.

Record ConceptVector (A : Type) : Type := mk_ConceptVector {
  name     : string;
  vector   : ndarray A;
  strength : A;
  metadata : dict string
}.

Record SteeringController (A : Type) : Type := mk_SteeringController {
  strategy        : SteeringStrategy;
  alpha           : A;
  beta            : A;
  normalize       : bool;
  concepts        : dict (ConceptVector A);
  active_concepts : list string
}.

Section Steering.
Context {A : Type} `{Scalar A}.

Definition set_vector (c : ConceptVector A) (v : ndarray A) : ConceptVector A :=
  mk_ConceptVector (name c) v (strength c) (metadata c).

Definition set_strength (c : ConceptVector A) (s : A) : ConceptVector A :=
  mk_ConceptVector (name c) (vector c) s (metadata c).

Definition set_concepts (c : SteeringController A) (d : dict (ConceptVector A))
  : SteeringController A :=
  mk_SteeringController (strategy c) (alpha c) (beta c) (normalize c) d
    (active_concepts c).

Definition set_active (c : SteeringController A) (l : list string)
  : SteeringController A :=
  mk_SteeringController (strategy c) (alpha c) (beta c) (normalize c)
    (concepts c) l.

(** [SteeringController.__init__] *)
Definition SteeringController_init (default_strategy : string)
    (alpha beta : A) (normalize : bool) : result (SteeringController A) :=
  st <- SteeringStrategy_of_value default_strategy ;;
  Ok (mk_SteeringController st alpha beta normalize [] []).

(** The vector after the normalisation at insertion. *)
Definition normalized (v : ndarray A) : ndarray A :=
  let n := norm v in
  if fltb fzero n then div_scalar v n else v.

(** [SteeringController.add_concept].  The Python method assigns the
    normalised vector to the caller's object, which the catalog then holds;
    here the catalog's entry is the updated record. *)
Definition add_concept (c : SteeringController A) (concept : ConceptVector A)
  : SteeringController A :=
  let concept' := set_vector concept (normalized (vector concept)) in
  set_concepts c (dict_set (name concept') concept' (concepts c)).

(** [SteeringController.deactivate_concept] *)
Definition deactivate_concept (c : SteeringController A) (nm : string)
  : SteeringController A :=
  if mem nm (active_concepts c)
  then set_active c (remove_first nm (active_concepts c))
  else c.

(** [SteeringController.remove_concept] *)
Definition remove_concept (c : SteeringController A) (nm : string)
  : SteeringController A :=
  let c' := if dict_mem nm (concepts c)
            then set_concepts c (dict_del nm (concepts c)) else c in
  deactivate_concept c' nm.

(** [SteeringController.activate_concept] *)
Definition activate_concept (c : SteeringController A) (nm : string)
    (strength : option A) : SteeringController A :=
  match dict_get nm (concepts c) with
  | None => c
  | Some concept =>
      let c1 := match strength with
                | Some s => set_concepts c
                              (dict_set nm (set_strength concept s) (concepts c))
                | None => c
                end in
      if mem nm (active_concepts c1) then c1
      else set_active c1 (active_concepts c1 ++ [nm])
  end.

(** [SteeringController.deactivate_all] *)
Definition deactivate_all (c : SteeringController A) : SteeringController A :=
  set_active c [].

(** Lines 123-128 of [steer]: the vector to use for one concept, [None]
    when the concept is skipped. *)
Definition reconcile (vector : ndarray A) (act_shape : list nat)
  : result (option (ndarray A)) :=
  vd <- shape_last (shape vector) ;;
  ad <- shape_last act_shape ;;
  if negb (vd =? ad) then
    if ndim vector =? 1
    then v <- broadcast_to vector act_shape ;; Ok (Some v)
    else Ok None
  else Ok (Some vector).

(** The scalar the additive strategy multiplies the vector by. *)
Definition gain (alpha beta strength : A) : A :=
  if fleb fzero strength then fmul alpha strength
  else fmul (fneg beta) (fabs strength).

(** Lines 131-145 of [steer]: one concept's transform. *)
Definition apply_strategy (c : SteeringController A) (layer_name : string)
    (steered vector : ndarray A) (strength : A) : result (ndarray A) :=
  match strategy c with
  | ADDITIVE =>
      nd_add steered (scalar_mul (gain (alpha c) (beta c) strength) vector)
  | PROJECTION =>
      p <- nd_mul steered vector ;;
      s <- sum_last p ;;
      proj <- nd_mul s vector ;;
      d <- nd_sub steered proj ;;
      nd_add d (scalar_mul (fmul (alpha c) strength) vector)
  | HSPACE =>
      if String.eqb layer_name "mid"
      then nd_add steered (scalar_mul (fmul (alpha c) strength) vector)
      else Ok steered
  end.

(** One iteration of the loop of [steer]. *)
Definition steer_concept (c : SteeringController A) (activations : ndarray A)
    (layer_name : string) (steered : ndarray A) (nm : string)
  : result (ndarray A) :=
  match dict_get nm (concepts c) with
  | None => Ok steered
  | Some concept =>
      r <- reconcile (vector concept) (shape activations) ;;
      match r with
      | None => Ok steered
      | Some v => apply_strategy c layer_name steered v (strength concept)
      end
  end.

Fixpoint steer_loop (c : SteeringController A) (activations : ndarray A)
    (layer_name : string) (steered : ndarray A) (names : list string)
  : result (ndarray A) :=
  match names with
  | [] => Ok steered
  | nm :: rest =>
      steered' <- steer_concept c activations layer_name steered nm ;;
      steer_loop c activations layer_name steered' rest
  end.

(** Lines 148-150: [steered / (new_norm + 1e-8) * original_norm]. *)
Definition renormalize (original_norm steered : ndarray A)
  : result (ndarray A) :=
  new_norm <- norm_last steered ;;
  q <- nd_div steered (add_scalar new_norm feps) ;;
  nd_mul q original_norm.

(** [SteeringController.steer] *)
Definition steer (c : SteeringController A) (activations : ndarray A)
    (layer_name : string) (timestep : Z) : result (ndarray A) :=
  match active_concepts c with
  | [] => Ok activations
  | _ :: _ =>
      original_norm <- norm_last activations ;;
      steered <- steer_loop c activations layer_name activations
                   (active_concepts c) ;;
      if normalize c then renormalize original_norm steered else Ok steered
  end.

(** *** The transforms at one position

    A position of the tensor is a row [r] along the last axis and [v] is the
    concept's vector.  These definitions follow the formulas of the
    specification, not the array code; the theorems relate the two. *)

(** [r + g v] *)
Definition axpy (g : A) (v r : list A) : list A :=
  map2 fadd r (map (fmul g) v).

(** additive: [r + gain v] *)
Definition additive_row (alpha beta s : A) (v r : list A) : list A :=
  axpy (gain alpha beta s) v r.

(** projection: [r - (r . v) v + alpha s v] *)
Definition projection_row (alpha s : A) (v r : list A) : list A :=
  axpy (fmul alpha s) v (map2 fsub r (map (fmul (fsum (map2 fmul r v))) v)).

(** hspace: the additive update with gain [alpha s], on layer "mid" only *)
Definition hspace_row (alpha s : A) (layer_name : string) (v r : list A)
  : list A :=
  if String.eqb layer_name "mid" then axpy (fmul alpha s) v r else r.

Definition strategy_row (c : SteeringController A) (layer_name : string)
    (s : A) (v r : list A) : list A :=
  match strategy c with
  | ADDITIVE => additive_row (alpha c) (beta c) s v r
  | PROJECTION => projection_row (alpha c) s v r
  | HSPACE => hspace_row (alpha c) s layer_name v r
  end.

(** The rows after the active concepts have been applied in order. *)
Fixpoint steer_rows (c : SteeringController A) (layer_name : string)
    (rs : list (list A)) (names : list string) : list (list A) :=
  match names with
  | [] => rs
  | nm :: rest =>
      steer_rows c layer_name
        (match dict_get nm (concepts c) with
         | None => rs
         | Some concept =>
             map (strategy_row c layer_name (strength concept)
                    (data (vector concept))) rs
         end)
        rest
  end.

(** The concepts that the loop of [steer] applies for a list of names: those
    of the names that are in the catalog, in the order of the list. *)
Definition named_concepts (c : SteeringController A) (names : list string)
  : list (ConceptVector A) :=
  flat_map (fun nm => match dict_get nm (concepts c) with
                      | Some concept => [concept]
                      | None => []
                      end) names.

Definition applied_concepts (c : SteeringController A)
  : list (ConceptVector A) :=
  named_concepts c (active_concepts c).

(** Every position after each applied concept, in order, has transformed it
    by [step]. *)
Definition each_applied (c : SteeringController A)
    (step : ConceptVector A -> list A -> list A) (rs : list (list A))
  : list (list A) :=
  map (fun r => fold_left (fun r' cv => step cv r') (applied_concepts c) r) rs.

(** Rescaling: a row [r] divided by [|r| + 1e-8] and multiplied by [n]. *)
Definition renorm_row (n : A) (r : list A) : list A :=
  map (fun x => fmul (fdiv x (fadd (l2 r) feps)) n) r.

(** The concept's vector is a 1-D array of [d] numbers. *)
Definition fits (d : nat) (concept : ConceptVector A) : bool :=
  match shape (vector concept) with
  | [m] => (m =? d) && (length (data (vector concept)) =? d)
  | _ => false
  end.

(** Every active concept that is in the catalog has such a vector. *)
Definition catalog_fits (c : SteeringController A) (d : nat) : bool :=
  forallb (fun nm => match dict_get nm (concepts c) with
                     | None => true
                     | Some concept => fits d concept
                     end)
    (active_concepts c).

(** Shape reconciliation raises for no active concept. *)
Definition reconciles (c : SteeringController A) (activations : ndarray A)
  : bool :=
  forallb (fun nm => match dict_get nm (concepts c) with
                     | None => true
                     | Some concept =>
                         negb (raises (reconcile (vector concept)
                                         (shape activations)))
                     end)
    (active_concepts c).

(** [SteeringController.compute_combined_vector] *)
Fixpoint combine (c : SteeringController A) (combined : option (ndarray A))
    (names : list string) : result (option (ndarray A)) :=
  match names with
  | [] => Ok combined
  | nm :: rest =>
      match dict_get nm (concepts c) with
      | None => combine c combined rest
      | Some concept =>
          let weighted :=
            nd_map (fun x => fmul x (strength concept)) (vector concept) in
          match combined with
          | None => combine c (Some weighted) rest
          | Some acc => s <- nd_add acc weighted ;; combine c (Some s) rest
          end
      end
  end.

Definition compute_combined_vector (c : SteeringController A)
  : result (option (ndarray A)) :=
  match active_concepts c with
  | [] => Ok None
  | _ :: _ => combine c None (active_concepts c)
  end.

End Steering.

(** *** [ConceptLibrary] and the files it reads and writes *)

(** What [pickle.load] finds in a file: a pickled catalog or something else. *)
Inductive file (A : Type) : Type :=
| PickledConcepts (d : dict (ConceptVector A))
| NotAPickle.

Arguments NotAPickle {A}.

(** The paths that exist and their contents. *)
Definition filesystem (A : Type) : Type := dict (file A).

Record ConceptLibrary (A : Type) : Type := mk_ConceptLibrary {
  path         : option string;
  lib_concepts : dict (ConceptVector A)
}.

Section Library.
Context {A : Type}.

(** Truth value of [self.path]: [None] and the empty string are false. *)
Definition path_truthy (p : option string) : option string :=
  match p with
  | Some EmptyString => None
  | _ => p
  end.

(** [self.path and os.path.exists(self.path)] *)
Definition path_exists (fs : filesystem A) (p : option string) : option string :=
  match path_truthy p with
  | Some q => if dict_mem q fs then Some q else None
  | None => None
  end.

(** [ConceptLibrary.load] *)
Definition load (fs : filesystem A) (l : ConceptLibrary A)
  : result (ConceptLibrary A) :=
  match path_exists fs (path l) with
  | Some q =>
      match dict_get q fs with
      | Some (PickledConcepts d) => Ok (mk_ConceptLibrary (path l) d)
      | _ => Raise UnpicklingError
      end
  | None => Ok l
  end.

(** [ConceptLibrary.__init__] *)
Definition ConceptLibrary_init (fs : filesystem A) (p : option string)
  : result (ConceptLibrary A) :=
  let l := mk_ConceptLibrary p [] in
  match path_exists fs p with
  | Some _ => load fs l
  | None => Ok l
  end.

(** [ConceptLibrary.add_concept] *)
Definition lib_add_concept (l : ConceptLibrary A) (concept : ConceptVector A)
  : ConceptLibrary A :=
  mk_ConceptLibrary (path l) (dict_set (name concept) concept (lib_concepts l)).

(** [ConceptLibrary.get_concept] *)
Definition get_concept (l : ConceptLibrary A) (nm : string)
  : option (ConceptVector A) :=
  dict_get nm (lib_concepts l).

(** [ConceptLibrary.list_concepts] *)
Definition list_concepts (l : ConceptLibrary A) : list string :=
  dict_keys (lib_concepts l).
End Library.

(* ------------------------------------------------------------------ *)
(** ** [integrations/casteer_integration.py] *)

Record CASteerConfig (A : Type) : Type := mk_CASteerConfig {
  ca_alpha          : A;
  ca_beta           : A;
  ca_normalize      : bool;
  apply_to_layers   : list string;
  ca_timestep_range : Z * Z
}.

Record CASteerApplier (A : Type) : Type := mk_CASteerApplier {
  config           : CASteerConfig A;
  steering_vectors : dict (ndarray A * A);
  active           : bool
}.

(* ------------------------------------------------------------------ *)
(** ** [integrations/hspace_integration.py] *)

Record HSpaceConfig (A : Type) : Type := mk_HSpaceConfig {
  edit_strength     : A;
  use_asyrp         : bool;
  hs_timestep_range : Z * Z
}.

Record HSpaceEditor (A : Type) : Type := mk_HSpaceEditor {
  hs_config       : HSpaceConfig A;
  edit_directions : dict (ndarray A * A);
  active_edits    : list string
}.

Section Appliers.
Context {A : Type} `{Scalar A}.

(** [CASteerConfig(...)] with [__post_init__]: a missing layer list is
    the three block names. *)
Definition CASteerConfig_init (alpha beta : A) (normalize : bool)
    (layers : option (list string)) (timestep_range : Z * Z)
  : CASteerConfig A :=
  mk_CASteerConfig alpha beta normalize
    (match layers with
     | Some l => l
     | None => ["down"; "mid"; "up"]%string
     end)
    timestep_range.

Definition CASteerConfig_default : CASteerConfig A :=
  CASteerConfig_init ften ftwo true None (0, 1000)%Z.

(** [CASteerApplier.__init__] *)
Definition CASteerApplier_init (cfg : option (CASteerConfig A))
  : CASteerApplier A :=
  mk_CASteerApplier
    (match cfg with Some c => c | None => CASteerConfig_default end) [] false.

(** [CASteerApplier.add_steering_vector] *)
Definition add_steering_vector (ap : CASteerApplier A) (nm : string)
    (vector : ndarray A) (strength : A) : CASteerApplier A :=
  mk_CASteerApplier (config ap)
    (dict_set nm (normalized vector, strength) (steering_vectors ap))
    (active ap).

Definition activate (ap : CASteerApplier A) : CASteerApplier A :=
  mk_CASteerApplier (config ap) (steering_vectors ap) true.

Definition deactivate (ap : CASteerApplier A) : CASteerApplier A :=
  mk_CASteerApplier (config ap) (steering_vectors ap) false.

(** [t_min <= timestep <= t_max] *)
Definition in_window (range : Z * Z) (timestep : Z) : bool :=
  let (t_min, t_max) := range in
  ((t_min <=? timestep) && (timestep <=? t_max))%Z.

(** The loop of [apply_steering], over the items in insertion order. *)
Fixpoint ca_loop (cfg : CASteerConfig A) (activations steered : ndarray A)
    (items : dict (ndarray A * A)) : result (ndarray A) :=
  match items with
  | [] => Ok steered
  | (_, (vector, strength)) :: rest =>
      vd <- shape_last (shape vector) ;;
      ad <- shape_last (shape activations) ;;
      if negb (vd =? ad) then ca_loop cfg activations steered rest
      else
        steered' <- nd_add steered
                      (scalar_mul (gain (ca_alpha cfg) (ca_beta cfg) strength)
                         vector) ;;
        ca_loop cfg activations steered' rest
  end.

(** [CASteerApplier.apply_steering] *)
Definition apply_steering (ap : CASteerApplier A) (activations : ndarray A)
    (layer_name : string) (timestep : Z) : result (ndarray A) :=
  if negb (active ap) || negb (mem layer_name (apply_to_layers (config ap)))
  then Ok activations
  else if negb (in_window (ca_timestep_range (config ap)) timestep)
  then Ok activations
  else
    original_norm <- norm_last activations ;;
    steered <- ca_loop (config ap) activations activations
                 (steering_vectors ap) ;;
    if ca_normalize (config ap)
    then renormalize original_norm steered
    else Ok steered.

Definition HSpaceConfig_default : HSpaceConfig A :=
  mk_HSpaceConfig fone true (200, 800)%Z.

(** [HSpaceEditor.__init__] *)
Definition HSpaceEditor_init (cfg : option (HSpaceConfig A)) : HSpaceEditor A :=
  mk_HSpaceEditor
    (match cfg with Some c => c | None => HSpaceConfig_default end) [] [].

(** [HSpaceEditor.add_edit_direction] *)
Definition add_edit_direction (ed : HSpaceEditor A) (nm : string)
    (direction : ndarray A) (strength : A) : HSpaceEditor A :=
  mk_HSpaceEditor (hs_config ed)
    (dict_set nm (normalized direction, strength) (edit_directions ed))
    (active_edits ed).

(** [HSpaceEditor.activate_edit] *)
Definition activate_edit (ed : HSpaceEditor A) (nm : string)
    (strength : option A) : HSpaceEditor A :=
  match dict_get nm (edit_directions ed) with
  | None => ed
  | Some (direction, _) =>
      let dirs := match strength with
                  | Some s => dict_set nm (direction, s) (edit_directions ed)
                  | None => edit_directions ed
                  end in
      mk_HSpaceEditor (hs_config ed) dirs
        (if mem nm (active_edits ed) then active_edits ed
         else active_edits ed ++ [nm])
  end.

(** [HSpaceEditor.deactivate_edit] *)
Definition deactivate_edit (ed : HSpaceEditor A) (nm : string) : HSpaceEditor A :=
  if mem nm (active_edits ed)
  then mk_HSpaceEditor (hs_config ed) (edit_directions ed)
         (remove_first nm (active_edits ed))
  else ed.

(** The loop of [apply_edit]. *)
Fixpoint hs_loop (ed : HSpaceEditor A) (h h_edited : ndarray A)
    (names : list string) : result (ndarray A) :=
  match names with
  | [] => Ok h_edited
  | nm :: rest =>
      match dict_get nm (edit_directions ed) with
      | None => hs_loop ed h h_edited rest
      | Some (direction, strength) =>
          dd <- shape_last (shape direction) ;;
          hd <- shape_last (shape h) ;;
          if negb (dd =? hd) then hs_loop ed h h_edited rest
          else
            h' <- nd_add h_edited
                    (scalar_mul
                       (fmul (edit_strength (hs_config ed)) strength)
                       direction) ;;
            hs_loop ed h h' rest
      end
  end.

(** [HSpaceEditor.apply_edit] *)
Definition apply_edit (ed : HSpaceEditor A) (h : ndarray A) (timestep : Z)
  : result (ndarray A) :=
  match active_edits ed with
  | [] => Ok h
  | _ :: _ =>
      if negb (in_window (hs_timestep_range (hs_config ed)) timestep)
      then Ok h
      else hs_loop ed h h (active_edits ed)
  end.
End Appliers.

(* ------------------------------------------------------------------ *)
(** ** Concrete inputs *)

(** [np.array([x0, x1, ...])] *)
Definition vec {A : Type} (l : list A) : ndarray A := mk_ndarray [length l] l.

(** [ConceptVector(nm, np.array(l), s)] *)
Definition concept_of {A : Type} (nm : string) (l : list A) (s : A)
  : ConceptVector A :=
  mk_ConceptVector nm (vec l) s [].

(** An engine as [__init__] leaves it. *)
Definition fresh_engine {A : Type} (st : SteeringStrategy) (alpha beta : A)
    (normalize : bool) : SteeringController A :=
  mk_SteeringController st alpha beta normalize [] [].

(** [add_concept(ConceptVector("a", np.array(l), s))] then
    [activate_concept("a")] on a fresh engine. *)
Definition engine_with {A : Type} `{Scalar A} (st : SteeringStrategy)
    (alpha beta : A) (normalize : bool) (l : list A) (s : A)
  : SteeringController A :=
  activate_concept
    (add_concept (fresh_engine st alpha beta normalize) (concept_of "a" l s))
    "a" None.

(** Two floats are the same number (not NaN, and +0 = -0). *)
Definition same_floats (l m : list float) : bool :=
  (length l =? length m) && forallb (fun b => b) (map2 PrimFloat.eqb l m).

(** A cross-attention applier with one direction, switched on, and a
    latent-space editor with one active edit. *)
Definition demo_applier : CASteerApplier float :=
  activate (add_steering_vector (CASteerApplier_init None) "a"
              (vec [3; 4]%float) 1%float).

Definition demo_editor : HSpaceEditor float :=
  activate_edit (add_edit_direction (HSpaceEditor_init None) "a"
                   (vec [3; 4]%float) 1%float) "a" None.

(** A library on a path that does not exist, holding one concept. *)
Definition demo_library : ConceptLibrary float :=
  lib_add_concept (mk_ConceptLibrary (Some "concepts.pkl"%string) [])
    (concept_of "a" [2; 0]%float 1%float).

(** The same with a second concept "b"; both are active, "a" first. *)
Definition engine_with2 {A : Type} `{Scalar A} (st : SteeringStrategy)
    (alpha beta : A) (normalize : bool) (l : list A) (s : A)
    (l' : list A) (s' : A) : SteeringController A :=
  activate_concept
    (activate_concept
       (add_concept
          (add_concept (fresh_engine st alpha beta normalize)
             (concept_of "a" l s))
          (concept_of "b" l' s'))
       "a" None)
    "b" None.

(* ------------------------------------------------------------------ *)
(** ** More of [steering.py] and of the integrations *)

Section SteeringMore.
Context {A : Type} `{Scalar A}.

(** [SteeringController.load_concepts] *)
Definition load_concepts (fs : filesystem A) (c : SteeringController A)
    (p : string) : result (SteeringController A) :=
  if dict_mem p fs then
    match dict_get p fs with
    | Some (PickledConcepts d) => Ok (set_concepts c d)
    | _ => Raise UnpicklingError
    end
  else Ok c.

(** What the methods of the engine keep: the catalog is a dictionary (no key
    twice), no name is active twice, and every active name is in the
    catalog. *)
Definition engine_ok (c : SteeringController A) : Prop :=
  NoDup (dict_keys (concepts c))
  /\ NoDup (active_concepts c)
  /\ forall nm, In nm (active_concepts c) -> dict_mem nm (concepts c) = true.

(** A direction that the appliers use: a well-formed 1-D array of [d]
    numbers; and one that they pass over: an array with at least one axis
    whose trailing dimension is not [d]. *)
Definition usable (d : nat) (v : ndarray A) : bool :=
  match shape v with
  | [m] => (m =? d) && (length (data v) =? d)
  | _ => false
  end.

Definition passed_over (d : nat) (v : ndarray A) : bool :=
  match rev (shape v) with
  | [] => false
  | m :: _ => negb (m =? d)
  end.

(** The rows after the loop of [apply_steering]: every usable direction adds
    [gain * v] to every row. *)
Fixpoint ca_rows (cfg : CASteerConfig A) (d : nat) (rs : list (list A))
    (items : dict (ndarray A * A)) : list (list A) :=
  match items with
  | [] => rs
  | (_, (v, s)) :: rest =>
      ca_rows cfg d
        (if usable d v
         then map (additive_row (ca_alpha cfg) (ca_beta cfg) s (data v)) rs
         else rs)
        rest
  end.

(** The rows after the loop of [apply_edit]: every active, stored and usable
    direction adds [edit_strength * s * v] to every row. *)
Fixpoint hs_rows (ed : HSpaceEditor A) (d : nat) (rs : list (list A))
    (names : list string) : list (list A) :=
  match names with
  | [] => rs
  | nm :: rest =>
      hs_rows ed d
        (match dict_get nm (edit_directions ed) with
         | Some (v, s) =>
             if usable d v
             then map (axpy (fmul (edit_strength (hs_config ed)) s) (data v)) rs
             else rs
         | None => rs
         end)
        rest
  end.

(** The strength-weighted sum that [compute_combined_vector] builds, on the
    numbers of 1-D vectors. *)
Fixpoint combined_data (c : SteeringController A) (acc : option (list A))
    (names : list string) : option (list A) :=
  match names with
  | [] => acc
  | nm :: rest =>
      match dict_get nm (concepts c) with
      | None => combined_data c acc rest
      | Some concept =>
          let weighted :=
            map (fun x => fmul x (strength concept)) (data (vector concept)) in
          combined_data c
            (Some (match acc with
                   | None => weighted
                   | Some a => map2 fadd a weighted
                   end))
            rest
      end
  end.
End SteeringMore.

(** [get_concept_prompts] of [casteer_integration.py] *)
Definition get_concept_prompts (concept : string)
  : list string * list string :=
  if String.eqb concept "creativity" then
    (["highly creative design"; "unique artwork"; "innovative composition"],
     ["generic design"; "boring artwork"; "common composition"])%string
  else if String.eqb concept "professional" then
    (["professional design"; "polished artwork"; "expert composition"],
     ["amateur design"; "rough artwork"; "beginner composition"])%string
  else if String.eqb concept "arabic_style" then
    (["Arabic geometric patterns"; "Islamic art"; "Arabian calligraphy"],
     ["Western modern design"; "European style"; "minimalist plain"])%string
  else
    ([String.append "high " concept], [String.append "low " concept]).

(* ------------------------------------------------------------------ *)
(** ** [advanced_thinking.py]: the choice of a steering strategy *)

Record AnalysisResult : Type := mk_AnalysisResult {
  style      : string;
  mood       : string;
  elements   : list string;
  colors     : list string;
  language   : string;
  complexity : string
}.

(** [AdvancedThinkingLayer._select_strategy] *)
Definition _select_strategy (analysis : AnalysisResult) : string :=
  if mem (style analysis) ["logo"; "icon"]%string then "additive"
  else if mem (style analysis) ["photo"]%string then "projection"
  else if String.eqb (mood analysis) "traditional" then "hspace"
  else "additive".

(* ------------------------------------------------------------------ *)
(** ** [core.py]: the engine that owns a library and a steering controller

    A [ConceptVector] is a Python object.  [NoesisEngine.add_concept] hands
    one object to the library and to the controller, and the controller's
    methods assign to its attributes.  So here the objects live in a store,
    a list indexed by address, and the two dictionaries hold addresses.  The
    controller's methods are written once more on addresses; the theorems
    relate them to the ones on values above. *)

(** The store with the object at address [r] changed by [f]. *)
Fixpoint update {B : Type} (r : nat) (f : B -> B) (h : list B) : list B :=
  match h, r with
  | [], _ => []
  | x :: h', O => f x :: h'
  | x :: h', S r' => x :: update r' f h'
  end.

(** A [SteeringController] whose catalog holds addresses. *)
Record ControllerRefs (A : Type) : Type := mk_ControllerRefs {
  c_strategy  : SteeringStrategy;
  c_alpha     : A;
  c_beta      : A;
  c_normalize : bool;
  c_concepts  : dict nat;
  c_active    : list string
}.

(** The fields of [NoesisConfig] that the methods below read. *)
Record NoesisConfig (A : Type) : Type := mk_NoesisConfig {
  enable_thinking      : bool;
  enable_steering      : bool;
  steering_strategy    : string;
  steering_alpha       : A;
  steering_beta        : A;
  concept_library_path : option string
}.

(** [ThoughtResult] of [advanced_thinking.py] *)
Record ThoughtResult (A : Type) : Type := mk_ThoughtResult {
  original_input      : string;
  understanding       : string;
  enhanced_prompt     : string;
  selected_concepts   : list (string * A);
  thought_strategy    : string;          (* the field [steering_strategy] *)
  reasoning           : option string;
  creative_variations : option (list string)
}.

(** [GenerationResult] without the image and the keyword arguments. *)
Record GenerationResult (A : Type) : Type := mk_GenerationResult {
  prompt_used      : string;
  thought          : option (ThoughtResult A);
  concepts_applied : list string
}.

Record NoesisEngine (A : Type) : Type := mk_NoesisEngine {
  engine_config       : NoesisConfig A;   (* the field [config] *)
  objects             : list (ConceptVector A);
  thinking_layer      : bool;                       (* is there one *)
  steering_controller : option (ControllerRefs A);
  library_path        : option string;              (* [concept_library.path] *)
  library_concepts    : dict nat                    (* [concept_library.concepts] *)
}.

Section Core.
Context {A : Type} `{Scalar A}.

(** The literal 0.5 (the quotient 1.0 / 2.0 is exact). *)
Definition half : A := fdiv fone ftwo.

Definition set_c_concepts (c : ControllerRefs A) (d : dict nat)
  : ControllerRefs A :=
  mk_ControllerRefs (c_strategy c) (c_alpha c) (c_beta c) (c_normalize c) d
    (c_active c).

Definition set_c_active (c : ControllerRefs A) (l : list string)
  : ControllerRefs A :=
  mk_ControllerRefs (c_strategy c) (c_alpha c) (c_beta c) (c_normalize c)
    (c_concepts c) l.

(** [SteeringController.add_concept] given the object at address [r] *)
Definition ctl_add_concept (h : list (ConceptVector A)) (c : ControllerRefs A)
    (r : nat) : list (ConceptVector A) * ControllerRefs A :=
  match nth_error h r with
  | Some concept =>
      (update r (fun o => set_vector o (normalized (vector o))) h,
       set_c_concepts c (dict_set (name concept) r (c_concepts c)))
  | None => (h, c)
  end.

(** [SteeringController.activate_concept] *)
Definition ctl_activate_concept (h : list (ConceptVector A))
    (c : ControllerRefs A) (nm : string) (strength : option A)
  : list (ConceptVector A) * ControllerRefs A :=
  match dict_get nm (c_concepts c) with
  | Some r =>
      (match strength with
       | Some s => update r (fun o => set_strength o s) h
       | None => h
       end,
       if mem nm (c_active c) then c
       else set_c_active c (c_active c ++ [nm]))
  | None => (h, c)
  end.

(** [SteeringController.deactivate_all] *)
Definition ctl_deactivate_all (c : ControllerRefs A) : ControllerRefs A :=
  set_c_active c [].

(** The objects that [pickle.load] creates for a saved registry, and the
    addresses they get. *)
Fixpoint alloc_all (h : list (ConceptVector A)) (d : dict (ConceptVector A))
  : list (ConceptVector A) * dict nat :=
  match d with
  | [] => (h, [])
  | (k, cv) :: d' =>
      let (h', refs) := alloc_all (h ++ [cv]) d' in
      (h', (k, length h) :: refs)
  end.

(** [NoesisEngine.add_concept] (and the body of the loop of
    [_load_default_concepts]) *)
Definition NoesisEngine_add_concept (e : NoesisEngine A) (nm : string)
    (v : ndarray A) (strength : A) : NoesisEngine A :=
  let r := length (objects e) in
  let h1 := objects e ++ [mk_ConceptVector nm v strength []] in
  let lib := dict_set nm r (library_concepts e) in
  match steering_controller e with
  | Some c =>
      let (h2, c') := ctl_add_concept h1 c r in
      mk_NoesisEngine (engine_config e) h2 (thinking_layer e) (Some c')
        (library_path e) lib
  | None =>
      mk_NoesisEngine (engine_config e) h1 (thinking_layer e) None
        (library_path e) lib
  end.

(** The names of [_load_default_concepts], in the order of its dictionary. *)
Definition default_names : list string :=
  ["creativity"; "professional"; "arabic_style"; "minimalist"; "detailed";
   "vibrant"; "traditional"; "modern"]%string.

(** [NoesisEngine._load_default_concepts]; [randn k] is the [k]-th vector
    that [np.random.randn(768)] returns. *)
Fixpoint load_defaults (randn : nat -> ndarray A) (k : nat)
    (names : list string) (e : NoesisEngine A) : NoesisEngine A :=
  match names with
  | [] => e
  | nm :: rest =>
      load_defaults randn (S k) rest
        (NoesisEngine_add_concept e nm (randn k) half)
  end.

(** [NoesisEngine.__init__] with [_initialize_components] *)
Definition NoesisEngine_init (fs : filesystem A) (randn : nat -> ndarray A)
    (cfg : NoesisConfig A) : result (NoesisEngine A) :=
  ctl <- (if enable_steering cfg
          then st <- SteeringStrategy_of_value (steering_strategy cfg) ;;
               Ok (Some (mk_ControllerRefs st (steering_alpha cfg)
                           (steering_beta cfg) true [] []))
          else Ok None) ;;
  lib <- ConceptLibrary_init fs (concept_library_path cfg) ;;
  let (h, refs) := alloc_all [] (lib_concepts lib) in
  Ok (load_defaults randn 0 default_names
        (mk_NoesisEngine cfg h (enable_thinking cfg) ctl (path lib) refs)).

(** [NoesisEngine.get_available_concepts] *)
Definition get_available_concepts (e : NoesisEngine A) : list string :=
  dict_keys (library_concepts e).

(** The engine after the controller, when there is one, has run [f]. *)
Definition with_controller (e : NoesisEngine A)
    (f : list (ConceptVector A) -> ControllerRefs A ->
         list (ConceptVector A) * ControllerRefs A) : NoesisEngine A :=
  match steering_controller e with
  | Some c =>
      let (h, c') := f (objects e) c in
      mk_NoesisEngine (engine_config e) h (thinking_layer e) (Some c')
        (library_path e) (library_concepts e)
  | None => e
  end.

(** [for name, strength in reqs: activate_concept(name, strength)] *)
Fixpoint activate_each (reqs : list (string * A))
    (h : list (ConceptVector A)) (c : ControllerRefs A)
  : list (ConceptVector A) * ControllerRefs A :=
  match reqs with
  | [] => (h, c)
  | (nm, s) :: rest =>
      let (h', c') := ctl_activate_concept h c nm (Some s) in
      activate_each rest h' c'
  end.

(** [concept_strengths.get(name, 0.5) if concept_strengths else 0.5] *)
Definition strength_for (concept_strengths : option (dict A)) (nm : string)
  : A :=
  match concept_strengths with
  | Some d => match dict_get nm d with Some s => s | None => half end
  | None => half
  end.

(** Truth value of the argument [concepts]. *)
Definition given (concepts : option (list string)) : list string :=
  match concepts with Some l => l | None => [] end.

(** [NoesisEngine.generate]; [think] is [self.think], the call of the
    thinking layer on the prompt. *)
Definition generate (think : string -> ThoughtResult A) (e : NoesisEngine A)
    (prompt : string) (concepts : option (list string))
    (concept_strengths : option (dict A))
  : NoesisEngine A * GenerationResult A :=
  let thought := if thinking_layer e then Some (think prompt) else None in
  let final_prompt :=
    match thought with Some t => enhanced_prompt t | None => prompt end in
  let e1 :=
    match thought, given concepts with
    | Some t, [] => with_controller e (activate_each (selected_concepts t))
    | _, _ => e
    end in
  let e2 :=
    match given concepts with
    | [] => e1
    | l => with_controller e1
             (activate_each
                (map (fun nm => (nm, strength_for concept_strengths nm)) l))
    end in
  let applied :=
    match steering_controller e2 with
    | Some c => c_active c
    | None => []
    end in
  (with_controller e2 (fun h c => (h, ctl_deactivate_all c)),
   mk_GenerationResult final_prompt thought applied).

(** *** What the store holds, as values *)

(** [d[k]] for a dictionary of addresses. *)
Definition lookup (h : list (ConceptVector A)) (d : dict nat) (k : string)
  : option (ConceptVector A) :=
  match dict_get k d with
  | Some r => nth_error h r
  | None => None
  end.

Definition no_concept : ConceptVector A :=
  mk_ConceptVector "" (mk_ndarray [] []) fzero [].

(** The dictionary of addresses as a dictionary of the objects. *)
Definition resolve (h : list (ConceptVector A)) (d : dict nat)
  : dict (ConceptVector A) :=
  map (fun kr => (fst kr, nth (snd kr) h no_concept)) d.

(** The controller as the [SteeringController] of values that it stands
    for. *)
Definition controller_view (h : list (ConceptVector A)) (c : ControllerRefs A)
  : SteeringController A :=
  mk_SteeringController (c_strategy c) (c_alpha c) (c_beta c) (c_normalize c)
    (resolve h (c_concepts c)) (c_active c).

(** Every address in the dictionaries is in the store, and the controller
    holds no address under two names. *)
Definition refs_in (h : list (ConceptVector A)) (d : dict nat) : Prop :=
  Forall (fun kr => snd kr < length h) d.

Definition store_ok (e : NoesisEngine A) : Prop :=
  refs_in (objects e) (library_concepts e)
  /\ match steering_controller e with
     | Some c => refs_in (objects e) (c_concepts c)
                 /\ NoDup (map snd (c_concepts c))
     | None => True
     end.

(** The value-level engine after the same requests. *)
Fixpoint activate_all (reqs : list (string * A)) (c : SteeringController A)
  : SteeringController A :=
  match reqs with
  | [] => c
  | (nm, s) :: rest => activate_all rest (activate_concept c nm (Some s))
  end.

(** The requests that [generate] passes to [activate_concept]. *)
Definition requests (think : string -> ThoughtResult A) (e : NoesisEngine A)
    (prompt : string) (concepts : option (list string))
    (concept_strengths : option (dict A)) : list (string * A) :=
  match given concepts with
  | [] => if thinking_layer e then selected_concepts (think prompt) else []
  | l => map (fun nm => (nm, strength_for concept_strengths nm)) l
  end.
End Core.

(** *** A concrete engine on floats *)

Definition demo_config : NoesisConfig float :=
  mk_NoesisConfig true true "additive" 10%float 2%float None.

(** Two-component stand-ins for the vectors drawn by the constructor. *)
Definition demo_randn (k : nat) : ndarray float :=
  vec [match k with O => 3 | _ => 2 end; 4]%float.

Definition demo_think (p : string) : ThoughtResult float :=
  mk_ThoughtResult p "" (String.append "E:" p)
    [("professional"%string, 0.8%float); ("artistic"%string, 0.7%float)]
    "additive" None None.

Definition demo_noesis : NoesisEngine float :=
  load_defaults demo_randn 0 default_names
    (mk_NoesisEngine demo_config [] true
       (Some (mk_ControllerRefs ADDITIVE 10%float 2%float true [] []))
       None []).

(* ================================================================== *)
(** * Properties *)

Unset Implicit Arguments.

(** ** Construction *)

Section Construction.
Context {A : Type} `{Scalar A}.

Lemma of_value_unknown (s : string) :
  ~ In s ["additive"; "projection"; "hspace"]%string ->
  SteeringStrategy_of_value s = Raise ValueError.
Proof.
  intros N. unfold SteeringStrategy_of_value.
  destruct (String.eqb_spec s "additive") as [->|_].
  { exfalso. apply N. simpl. auto. }
  destruct (String.eqb_spec s "projection") as [->|_].
  { exfalso. apply N. simpl. auto. }
  destruct (String.eqb_spec s "hspace") as [->|_].
  { exfalso. apply N. simpl. auto. }
  reflexivity.
Qed.

(** C10: the constructor succeeds on the three strategy names, each giving
    an engine with the member of that name, an empty catalog and nothing
    active, and raises ValueError on every other string. *)
Theorem init_raises_on_unknown_strategy (s : string) (a b : A) (n : bool) :
  SteeringController_init "additive" a b n = Ok (fresh_engine ADDITIVE a b n)
  /\ SteeringController_init "projection" a b n
     = Ok (fresh_engine PROJECTION a b n)
  /\ SteeringController_init "hspace" a b n = Ok (fresh_engine HSPACE a b n)
  /\ (~ In s ["additive"; "projection"; "hspace"]%string ->
      SteeringController_init s a b n = Raise ValueError).
Proof.
  repeat split. intros N. unfold SteeringController_init.
  rewrite (of_value_unknown s N). reflexivity.
Qed.
End Construction.

Lemma init_raises_on_unknown_strategy_witness :
  SteeringController_init "hspace" 10%float 2%float true
  = Ok (fresh_engine HSPACE 10%float 2%float true)
  /\ SteeringController_init "spherical" 10%float 2%float true
     = Raise ValueError.
Proof.
  destruct (init_raises_on_unknown_strategy "spherical" 10%float 2%float true)
    as [_ [_ [E U]]].
  split; [exact E|]. apply U.
  simpl. intros [Q|[Q|[Q|[]]]]; discriminate Q.
Defined.

(** ** Identity and gating *)

Section Gating.
Context {A : Type} `{Scalar A}.

(** C8: with an empty active list [steer] returns its input, whatever the
    shape of the input (a 0-d or empty array too), the layer and the
    timestep. *)
Theorem steer_no_active (c : SteeringController A) (x : ndarray A)
    (layer : string) (t : Z) :
  active_concepts c = [] -> steer c x layer t = Ok x.
Proof. intros E. unfold steer. rewrite E. reflexivity. Qed.

Lemma mem_In (x : string) (l : list string) : mem x l = true <-> In x l.
Proof.
  induction l as [|y l IH]; simpl.
  - split; [discriminate | intros []].
  - rewrite orb_true_iff, IH. split.
    + intros [E|I]; [left; symmetry; now apply String.eqb_eq | now right].
    + intros [E|I]; [left; subst; apply String.eqb_refl | now right].
Qed.

Lemma in_window_spec (lo hi t : Z) :
  in_window (lo, hi) t = true <-> (lo <= t <= hi)%Z.
Proof. unfold in_window. rewrite andb_true_iff, !Z.leb_le. tauto. Qed.

Lemma apply_steering_closed (ap : CASteerApplier A) (x : ndarray A)
    (layer : string) (t : Z) :
  active ap = false
  \/ ~ In layer (apply_to_layers (config ap))
  \/ ~ (fst (ca_timestep_range (config ap)) <= t
        <= snd (ca_timestep_range (config ap)))%Z ->
  apply_steering ap x layer t = Ok x.
Proof.
  intros G. unfold apply_steering.
  destruct (active ap) eqn:Ea; simpl; [|reflexivity].
  destruct (mem layer (apply_to_layers (config ap))) eqn:Em; simpl;
    [|reflexivity].
  destruct (ca_timestep_range (config ap)) as [lo hi] eqn:Er.
  destruct (in_window (lo, hi) t) eqn:Ew; simpl; [|reflexivity].
  exfalso. destruct G as [G|[G|G]].
  - discriminate G.
  - apply G. now apply mem_In.
  - apply G. simpl. now apply in_window_spec.
Qed.

Lemma apply_edit_closed (ed : HSpaceEditor A) (h : ndarray A) (t : Z) :
  active_edits ed = []
  \/ ~ (fst (hs_timestep_range (hs_config ed)) <= t
        <= snd (hs_timestep_range (hs_config ed)))%Z ->
  apply_edit ed h t = Ok h.
Proof.
  intros G. unfold apply_edit.
  destruct (active_edits ed) as [|nm rest] eqn:Ea; [reflexivity|].
  destruct (hs_timestep_range (hs_config ed)) as [lo hi] eqn:Er.
  destruct (in_window (lo, hi) t) eqn:Ew; simpl; [|reflexivity].
  exfalso. destruct G as [G|G].
  - discriminate G.
  - apply G. simpl. now apply in_window_spec.
Qed.

(** C7: both gated appliers return their input as it is when the gate is
    closed: the cross-attention applier when it is inactive, or the layer
    is not in its allow-list, or the timestep is outside the inclusive
    window; the latent-space applier when no edit is active or the
    timestep is outside its window.  The configured directions play no
    part. *)
Theorem appliers_pass_through_when_gated (ap : CASteerApplier A)
    (ed : HSpaceEditor A) (x : ndarray A) (layer : string) (t : Z) :
  (active ap = false
   \/ ~ In layer (apply_to_layers (config ap))
   \/ ~ (fst (ca_timestep_range (config ap)) <= t
         <= snd (ca_timestep_range (config ap)))%Z ->
   apply_steering ap x layer t = Ok x)
  /\ (active_edits ed = []
      \/ ~ (fst (hs_timestep_range (hs_config ed)) <= t
            <= snd (hs_timestep_range (hs_config ed)))%Z ->
      apply_edit ed x t = Ok x).
Proof.
  split; [apply apply_steering_closed | apply apply_edit_closed].
Qed.
End Gating.

Lemma steer_no_active_witness :
  steer (deactivate_all (engine_with ADDITIVE 10 2 true [1; 0] 1)%float)
        (mk_ndarray [] [5%float]) "mid" 0
  = Ok (mk_ndarray [] [5%float]).
Proof.
  apply (steer_no_active
           (deactivate_all (engine_with ADDITIVE 10 2 true [1; 0] 1)%float)).
  reflexivity.
Defined.

Lemma appliers_pass_through_when_gated_witness :
  apply_steering demo_applier (vec [1; 2]%float) "mid" 1001 = Ok (vec [1; 2]%float)
  /\ apply_edit demo_editor (vec [1; 2]%float) 199 = Ok (vec [1; 2]%float).
Proof.
  split.
  - apply (proj1 (appliers_pass_through_when_gated demo_applier demo_editor
                      (vec [1; 2]%float) "mid" 1001)).
    right. right. cbn. lia.
  - apply (proj2 (appliers_pass_through_when_gated demo_applier demo_editor
                      (vec [1; 2]%float) "mid" 199)).
    right. cbn. lia.
Defined.

(** Inside the gate the same appliers do change the tensor. *)
Example demo_applier_open :
  apply_steering demo_applier (vec [0; 5]%float) "mid" 1000
  = Ok (vec [2.0952908858453196; 4.5397969193315264]%float).
Proof. vm_compute. reflexivity. Qed.

Example demo_editor_open :
  apply_edit demo_editor (vec [1; 2]%float) 200
  = Ok (vec [1.6000000000000001; 2.7999999999999998]%float).
Proof. vm_compute. reflexivity. Qed.

(** ** The concept library *)

Section LibraryFacts.
Context {A : Type}.

Lemma path_exists_missing (fs : filesystem A) (p : option string) :
  (forall q, p = Some q -> dict_mem q fs = false) ->
  path_exists fs p = None.
Proof.
  intros M. unfold path_exists.
  destruct (path_truthy p) as [q|] eqn:E; [|reflexivity].
  assert (P : p = Some q).
  { destruct p as [[|a s]|]; simpl in E; congruence. }
  rewrite (M q P). reflexivity.
Qed.

(** C9 (as amended): when the library's path does not exist (or the
    library has no path), [load] raises nothing and leaves the registry as
    it was; a library constructed on such a path starts empty, and
    loading it again keeps it empty. *)
Theorem load_missing_path_keeps_registry (fs : filesystem A)
    (l : ConceptLibrary A) :
  (forall q, path l = Some q -> dict_mem q fs = false) ->
  load fs l = Ok l
  /\ ConceptLibrary_init fs (path l) = Ok (mk_ConceptLibrary (path l) [])
  /\ load fs (mk_ConceptLibrary (path l) []) = Ok (mk_ConceptLibrary (path l) []).
Proof.
  intros M. pose proof (path_exists_missing fs (path l) M) as E.
  unfold ConceptLibrary_init, load. simpl. rewrite E. auto.
Qed.
End LibraryFacts.

Lemma load_missing_path_keeps_registry_witness :
  load [] demo_library = Ok demo_library
  /\ ConceptLibrary_init [] (path demo_library)
     = Ok (mk_ConceptLibrary (A:=float) (path demo_library) [])
  /\ load [] (mk_ConceptLibrary (path demo_library) [])
     = Ok (mk_ConceptLibrary (A:=float) (path demo_library) []).
Proof.
  apply (load_missing_path_keeps_registry [] demo_library).
  intros q _. reflexivity.
Defined.

(** C9, counterexample: the path of [demo_library] does not exist, [load]
    returns without error, and the registry still lists its concept. *)
Lemma load_missing_path_not_empty :
  dict_mem "concepts.pkl" (@nil (string * file float)) = false
  /\ path demo_library = Some "concepts.pkl"%string
  /\ exists l, load [] demo_library = Ok l
             /\ list_concepts l = ["a"%string]
             /\ lib_concepts l <> [].
Proof.
  split; [reflexivity|]. split; [reflexivity|].
  exists demo_library. repeat split. discriminate.
Qed.

(** ** Rows, shapes and broadcasting *)

Section ListFacts.
Context {A : Type}.

Lemma chunks_length (k n : nat) (l : list A) : length (chunks k n l) = n.
Proof.
  revert l. induction n as [|n IH]; intros l; simpl; [reflexivity|].
  now rewrite IH.
Qed.

Lemma chunks_cons (k n : nat) (r l : list A) :
  length r = k -> chunks k (S n) (r ++ l) = r :: chunks k n l.
Proof.
  intros E. simpl. f_equal.
  - rewrite firstn_app, E, Nat.sub_diag. simpl.
    rewrite <- E, firstn_all. apply app_nil_r.
  - rewrite skipn_app, E, Nat.sub_diag. simpl.
    rewrite <- E, skipn_all. reflexivity.
Qed.

Lemma chunks_concat (k : nat) (rs : list (list A)) :
  Forall (fun r => length r = k) rs ->
  chunks k (length rs) (concat rs) = rs.
Proof.
  induction 1 as [|r rs E _ IH]; [reflexivity|].
  cbn [length concat]. rewrite chunks_cons by exact E. now rewrite IH.
Qed.

Lemma concat_chunks (k n : nat) (l : list A) :
  length l = n * k -> concat (chunks k n l) = l.
Proof.
  revert l. induction n as [|n IH]; intros l E; simpl in *.
  - symmetry. now apply length_zero_iff_nil.
  - rewrite IH; [apply firstn_skipn|].
    rewrite length_skipn. lia.
Qed.

Lemma chunks_Forall (k n : nat) (l : list A) :
  length l = n * k -> Forall (fun r => length r = k) (chunks k n l).
Proof.
  revert l. induction n as [|n IH]; intros l E; simpl in *; constructor.
  - rewrite length_firstn. lia.
  - apply IH. rewrite length_skipn. lia.
Qed.

Lemma length_concat_rows (k : nat) (rs : list (list A)) :
  Forall (fun r => length r = k) rs -> length (concat rs) = length rs * k.
Proof.
  induction 1 as [|r rs E _ IH]; [reflexivity|].
  simpl. rewrite length_app, IH, E. reflexivity.
Qed.

Lemma map2_length {B C : Type} (f : A -> B -> C) (l : list A) (m : list B) :
  length l = length m -> length (map2 f l m) = length l.
Proof.
  revert m. induction l as [|x l IH]; intros [|y m] E; simpl in *;
    try discriminate; [reflexivity|].
  f_equal. apply IH. lia.
Qed.

Lemma map2_app {B C : Type} (f : A -> B -> C) (l l' : list A) (m m' : list B) :
  length l = length m ->
  map2 f (l ++ l') (m ++ m') = map2 f l m ++ map2 f l' m'.
Proof.
  revert m. induction l as [|x l IH]; intros [|y m] E; simpl in *;
    try discriminate; [reflexivity|].
  f_equal. apply IH. lia.
Qed.

Lemma map2_repeat_r {B C : Type} (f : A -> B -> C) (l : list A) (c : B) :
  map2 f l (repeat c (length l)) = map (fun x => f x c) l.
Proof. induction l as [|x l IH]; simpl; [reflexivity|]. now rewrite IH. Qed.

Lemma map2_repeat_l {B C : Type} (f : B -> A -> C) (c : B) (l : list A) :
  map2 f (repeat c (length l)) l = map (f c) l.
Proof. induction l as [|x l IH]; simpl; [reflexivity|]. now rewrite IH. Qed.
End ListFacts.

Section ConcatFacts.
Context {A : Type}.

(** Row by row: two arrays with rows of the same lengths. *)
Lemma map2_concat (f : A -> A -> A) (d : nat) (rs rs' : list (list A)) :
  Forall (fun r => length r = d) rs ->
  Forall (fun r => length r = d) rs' ->
  length rs = length rs' ->
  map2 f (concat rs) (concat rs') = concat (map2 (map2 f) rs rs').
Proof.
  intros F. revert rs'.
  induction F as [|r rs E _ IH]; intros [|r' rs'] F' L; simpl in *;
    try discriminate; [reflexivity|].
  inversion F' as [|? ? E' F'']; subst.
  rewrite map2_app by congruence. f_equal. apply IH; [exact F''|lia].
Qed.

(** A row against a column entry stretched along the row. *)
Lemma map2_rows_col (f : A -> A -> A) (d : nat) (rs : list (list A))
    (cs : list A) :
  Forall (fun r => length r = d) rs ->
  map2 (map2 f) rs (map (fun c => repeat c d) cs)
  = map2 (fun r c => map (fun x => f x c) r) rs cs.
Proof.
  intros F. revert cs.
  induction F as [|r rs E _ IH]; intros [|c cs]; simpl; try reflexivity.
  rewrite IH. f_equal. rewrite <- E. apply map2_repeat_r.
Qed.

(** Every row against the same vector. *)
Lemma map2_rows_vec (f : A -> A -> A) (rs : list (list A)) (v : list A) :
  map2 (map2 f) rs (repeat v (length rs)) = map (fun r => map2 f r v) rs.
Proof. apply map2_repeat_r. Qed.

(** A column entry stretched along the row against the same vector. *)
Lemma map2_col_vec (f : A -> A -> A) (cs : list A) (v : list A) :
  map2 (map2 f) (map (fun c => repeat c (length v)) cs) (repeat v (length cs))
  = map (fun c => map (f c) v) cs.
Proof.
  induction cs as [|c cs IH]; simpl; [reflexivity|].
  rewrite IH. f_equal. apply map2_repeat_l.
Qed.

Lemma Forall_length_map (g : list A -> list A) (d : nat) (rs : list (list A)) :
  (forall r, length r = d -> length (g r) = d) ->
  Forall (fun r => length r = d) rs ->
  Forall (fun r => length r = d) (map g rs).
Proof.
  intros G F. induction F as [|r rs E _ IH]; simpl; constructor; auto.
Qed.

Lemma Forall_length_repeat (v : list A) (n : nat) :
  Forall (fun r => length r = length v) (repeat v n).
Proof. induction n; simpl; constructor; auto. Qed.

Lemma Forall_length_repeat_col (d : nat) (cs : list A) :
  Forall (fun r => length r = d) (map (fun c => repeat c d) cs).
Proof.
  induction cs; simpl; constructor; auto. apply repeat_length.
Qed.
End ConcatFacts.

Section ShapeFacts.

Lemma size_of_app (s t : list nat) : size_of (s ++ t) = size_of s * size_of t.
Proof.
  induction s as [|a s IH]; simpl; [lia|]. rewrite IH. lia.
Qed.

Lemma size_of_snoc (outer : list nat) (d : nat) :
  size_of (outer ++ [d]) = size_of outer * d.
Proof. rewrite size_of_app. simpl. lia. Qed.

Lemma shape_last_snoc (outer : list nat) (d : nat) :
  shape_last (outer ++ [d]) = Ok d.
Proof. unfold shape_last. now rewrite rev_app_distr. Qed.

Lemma shape_last_nil : shape_last [] = Raise IndexError.
Proof. reflexivity. Qed.

Lemma broadcast_rev_nil_r (s : list nat) : broadcast_rev s [] = Some s.
Proof. destruct s; reflexivity. Qed.

Lemma broadcast_rev_same (s : list nat) : broadcast_rev s s = Some s.
Proof.
  induction s as [|a s IH]; simpl; [reflexivity|].
  now rewrite IH, Nat.eqb_refl.
Qed.

Lemma broadcast_same (s : list nat) : broadcast_shapes s s = Some s.
Proof.
  unfold broadcast_shapes. rewrite broadcast_rev_same. simpl.
  now rewrite rev_involutive.
Qed.

(** An array of rows against a vector of the row length. *)
Lemma broadcast_vec (outer : list nat) (d : nat) :
  broadcast_shapes (outer ++ [d]) [d] = Some (outer ++ [d]).
Proof.
  unfold broadcast_shapes. rewrite rev_app_distr. simpl.
  rewrite broadcast_rev_nil_r, Nat.eqb_refl. simpl.
  now rewrite rev_involutive.
Qed.

(** An array of rows against one number per row. *)
Lemma broadcast_col (outer : list nat) (d : nat) :
  broadcast_shapes (outer ++ [d]) (outer ++ [1]) = Some (outer ++ [d]).
Proof.
  unfold broadcast_shapes. rewrite !rev_app_distr. simpl.
  rewrite broadcast_rev_same.
  destruct (d =? 1) eqn:E; simpl; now rewrite rev_involutive.
Qed.

(** One number per row against a vector. *)
Lemma broadcast_col_vec (outer : list nat) (d : nat) :
  broadcast_shapes (outer ++ [1]) [d] = Some (outer ++ [d]).
Proof.
  unfold broadcast_shapes. rewrite rev_app_distr. simpl.
  rewrite broadcast_rev_nil_r.
  destruct d as [|[|d]]; simpl; now rewrite rev_involutive.
Qed.

(** A vector of another length than the rows, and not of length 1, does not
    broadcast. *)
Lemma broadcast_vec_mismatch (outer : list nat) (d m : nat) :
  m <> d -> m <> 1 -> d <> 1 -> broadcast_shapes [m] (outer ++ [d]) = None.
Proof.
  intros Nd N1 D1. unfold broadcast_shapes. rewrite rev_app_distr. simpl.
  apply Nat.eqb_neq in Nd, N1, D1. now rewrite Nd, N1, D1.
Qed.

Lemma pad_shape_same_length (s t : list nat) :
  length s = length t -> pad_shape (length t) s = s.
Proof. intros E. unfold pad_shape. now rewrite E, Nat.sub_diag. Qed.

Lemma pad_shape_vec (outer : list nat) (d m : nat) :
  pad_shape (length (outer ++ [d])) [m] = repeat 1 (length outer) ++ [m].
Proof.
  unfold pad_shape. rewrite length_app. simpl.
  now replace (length outer + 1 - 1) with (length outer) by lia.
Qed.
End ShapeFacts.

Section ExpandFacts.
Context {A : Type}.

Lemma map_id_on (g : list A -> list A) (rs : list (list A)) :
  Forall (fun r => g r = r) rs -> map g rs = rs.
Proof. induction 1 as [|r rs E _ IH]; simpl; congruence. Qed.

Lemma expand_same (s : list nat) (l : list A) :
  length l = size_of s -> expand s s l = l.
Proof.
  revert l. induction s as [|a s IH]; intros l E; simpl; [reflexivity|].
  rewrite Nat.eqb_refl. simpl in E.
  assert (E' : length l = a * size_of s) by lia.
  rewrite map_id_on; [now apply concat_chunks|].
  eapply Forall_impl; [|apply chunks_Forall; exact E'].
  intros r Er. now apply IH.
Qed.

Lemma concat_repeat_concat (v : list A) (n m : nat) :
  concat (repeat (concat (repeat v n)) m) = concat (repeat v (m * n)).
Proof.
  induction m as [|m IH]; simpl; [reflexivity|].
  rewrite IH, repeat_app, concat_app. reflexivity.
Qed.

(** A vector stretched over all the rows. *)
Lemma size_of_ones (n : nat) : size_of (repeat 1 n) = 1.
Proof. induction n; simpl; lia. Qed.

Lemma expand_vec (outer : list nat) (v : list A) :
  expand (repeat 1 (length outer) ++ [length v]) (outer ++ [length v]) v
  = concat (repeat v (size_of outer)).
Proof.
  induction outer as [|a outer IH].
  - cbn [length repeat app]. rewrite expand_same by (simpl; lia).
    simpl. now rewrite app_nil_r.
  - cbn [length repeat app expand].
    rewrite size_of_snoc, size_of_ones, Nat.mul_1_l.
    destruct (1 =? a) eqn:E.
    + apply Nat.eqb_eq in E. subst a.
      cbn [chunks map concat]. rewrite firstn_all, app_nil_r, IH.
      simpl. now rewrite Nat.add_0_r.
    + rewrite IH. apply concat_repeat_concat.
Qed.

(** One number per row stretched along its row. *)
Lemma expand_col (outer : list nat) (d : nat) (cs : list A) :
  length cs = size_of outer ->
  expand (outer ++ [1]) (outer ++ [d]) cs
  = concat (map (fun c => repeat c d) cs).
Proof.
  revert cs. induction outer as [|a outer IH]; intros cs E.
  - destruct cs as [|c [|c' cs]]; simpl in E; try discriminate.
    cbn [app expand map concat]. rewrite app_nil_r.
    destruct (1 =? d) eqn:D.
    + apply Nat.eqb_eq in D. subst d. reflexivity.
    + cbn [expand]. clear. induction d; simpl; congruence.
  - cbn [app expand]. simpl in E.
    rewrite Nat.eqb_refl, size_of_snoc, Nat.mul_1_r.
    assert (E' : length cs = a * size_of outer) by lia.
    rewrite <- (concat_chunks (size_of outer) a cs E') at 2.
    pose proof (chunks_Forall (size_of outer) a cs E') as F.
    induction F as [|r rs Er _ IHF]; simpl; [reflexivity|].
    rewrite IH by exact Er. rewrite map_app, concat_app. now f_equal.
Qed.
End ExpandFacts.

Section RowFacts.
Context {A : Type} `{Scalar A}.

Lemma row_list_data_length (outer : list nat) (d : nat) (rs : list (list A)) :
  row_list outer d rs -> length (concat rs) = size_of (outer ++ [d]).
Proof.
  intros [L F]. rewrite (length_concat_rows d rs F), size_of_snoc. now rewrite L.
Qed.

Lemma rows_of_rows (outer : list nat) (d : nat) (rs : list (list A)) :
  row_list outer d rs -> rows (of_rows outer d rs) = rs.
Proof.
  intros [L F]. unfold rows, of_rows. simpl.
  rewrite last_last, removelast_last, <- L. now apply chunks_concat.
Qed.

Lemma of_rows_rows (outer : list nat) (d : nat) (a : ndarray A) :
  shape a = outer ++ [d] -> wf_ndarray a = true ->
  a = of_rows outer d (rows a) /\ row_list outer d (rows a).
Proof.
  destruct a as [sh l]. unfold wf_ndarray, rows, of_rows. simpl.
  intros -> W. apply Nat.eqb_eq in W. rewrite size_of_snoc in W.
  rewrite last_last, removelast_last. split.
  - now rewrite concat_chunks.
  - split; [apply chunks_length | now apply chunks_Forall].
Qed.

Lemma wf_of_rows (outer : list nat) (d : nat) (rs : list (list A)) :
  row_list outer d rs -> wf_ndarray (of_rows outer d rs) = true.
Proof.
  intros R. unfold wf_ndarray, of_rows. simpl.
  apply Nat.eqb_eq. now apply row_list_data_length.
Qed.

Lemma row_list_map (g : list A -> list A) (outer : list nat) (d : nat)
    (rs : list (list A)) :
  (forall r, length r = d -> length (g r) = d) ->
  row_list outer d rs -> row_list outer d (map g rs).
Proof.
  intros G [L F]. split; [now rewrite length_map|].
  now apply Forall_length_map.
Qed.

Lemma row_list_map2 (g : list A -> list A -> list A) (outer : list nat)
    (d : nat) (rs rs' : list (list A)) :
  (forall r r', length r = d -> length r' = d -> length (g r r') = d) ->
  row_list outer d rs -> row_list outer d rs' ->
  row_list outer d (map2 g rs rs').
Proof.
  intros G [L F] [L' F']. split.
  - rewrite map2_length; congruence.
  - clear L L'. revert rs' F'.
    induction F as [|r rs E _ IH]; intros [|r' rs'] F'; simpl; constructor.
    + inversion F'; subst. now apply G.
    + inversion F'; subst. now apply IH.
Qed.

Lemma row_list_map2_col (g : list A -> A -> list A) (outer : list nat)
    (d : nat) (rs : list (list A)) (cs : list A) :
  (forall r c, length r = d -> length (g r c) = d) ->
  row_list outer d rs -> length cs = size_of outer ->
  row_list outer d (map2 g rs cs).
Proof.
  intros G [L F] Lc. split.
  - rewrite map2_length; congruence.
  - clear L Lc. revert cs.
    induction F as [|r rs E _ IH]; intros [|c cs]; simpl; constructor; auto.
Qed.

Lemma row_list_map_col (g : A -> list A) (outer : list nat) (d : nat)
    (cs : list A) :
  (forall c, length (g c) = d) -> length cs = size_of outer ->
  row_list outer d (map g cs).
Proof.
  intros G L. split; [now rewrite length_map|].
  clear L. induction cs; simpl; constructor; auto.
Qed.

(** Rows against a vector of the row length. *)
Lemma binop_vec (f : A -> A -> A) (outer : list nat) (rs : list (list A))
    (v : list A) :
  row_list outer (length v) rs ->
  nd_binop f (of_rows outer (length v) rs) (vec v)
  = Ok (of_rows outer (length v) (map (fun r => map2 f r v) rs)).
Proof.
  intros R. pose proof (row_list_data_length _ _ _ R) as D.
  destruct R as [L F].
  unfold nd_binop, of_rows, vec, stretch. cbn [shape data].
  rewrite broadcast_vec, pad_shape_same_length by reflexivity.
  rewrite expand_same by exact D.
  rewrite pad_shape_vec, expand_vec.
  rewrite (map2_concat f (length v)); auto.
  - now rewrite <- L, map2_rows_vec.
  - apply Forall_length_repeat.
  - now rewrite repeat_length.
Qed.

(** Rows against one number per row. *)
Lemma binop_col (f : A -> A -> A) (outer : list nat) (d : nat)
    (rs : list (list A)) (cs : list A) :
  row_list outer d rs -> length cs = size_of outer ->
  nd_binop f (of_rows outer d rs) (mk_ndarray (outer ++ [1]) cs)
  = Ok (of_rows outer d (map2 (fun r c => map (fun x => f x c) r) rs cs)).
Proof.
  intros R Lc. pose proof (row_list_data_length _ _ _ R) as D.
  destruct R as [L F].
  unfold nd_binop, of_rows, stretch. cbn [shape data].
  rewrite broadcast_col, !pad_shape_same_length
    by (rewrite ?length_app; reflexivity).
  rewrite expand_same by exact D.
  rewrite expand_col by exact Lc.
  rewrite (map2_concat f d); auto.
  - now rewrite map2_rows_col.
  - apply Forall_length_repeat_col.
  - rewrite length_map. congruence.
Qed.

(** Two arrays of rows of the same shape. *)
Lemma binop_same (f : A -> A -> A) (outer : list nat) (d : nat)
    (rs rs' : list (list A)) :
  row_list outer d rs -> row_list outer d rs' ->
  nd_binop f (of_rows outer d rs) (of_rows outer d rs')
  = Ok (of_rows outer d (map2 (map2 f) rs rs')).
Proof.
  intros R R'. pose proof (row_list_data_length _ _ _ R) as D.
  pose proof (row_list_data_length _ _ _ R') as D'.
  destruct R as [L F], R' as [L' F'].
  unfold nd_binop, of_rows, stretch. cbn [shape data].
  rewrite broadcast_same, !pad_shape_same_length by reflexivity.
  rewrite !expand_same by assumption.
  rewrite (map2_concat f d); auto. congruence.
Qed.

(** One number per row against a vector. *)
Lemma binop_col_vec (f : A -> A -> A) (outer : list nat) (cs v : list A) :
  length cs = size_of outer ->
  nd_binop f (mk_ndarray (outer ++ [1]) cs) (vec v)
  = Ok (of_rows outer (length v) (map (fun c => map (f c) v) cs)).
Proof.
  intros Lc. unfold nd_binop, of_rows, vec, stretch. cbn [shape data].
  rewrite broadcast_col_vec.
  rewrite pad_shape_same_length by (rewrite !length_app; reflexivity).
  rewrite expand_col by exact Lc.
  rewrite pad_shape_vec, expand_vec.
  rewrite (map2_concat f (length v)).
  - now rewrite <- Lc, map2_col_vec.
  - apply Forall_length_repeat_col.
  - apply Forall_length_repeat.
  - now rewrite length_map, repeat_length.
Qed.

Lemma binop_vec' (f : A -> A -> A) (outer : list nat) (d : nat)
    (rs : list (list A)) (v : list A) :
  row_list outer d rs -> length v = d ->
  nd_binop f (of_rows outer d rs) (mk_ndarray [d] v)
  = Ok (of_rows outer d (map (fun r => map2 f r v) rs)).
Proof. intros R E. subst d. now apply binop_vec. Qed.

Lemma binop_col_vec' (f : A -> A -> A) (outer : list nat) (d : nat)
    (cs v : list A) :
  length cs = size_of outer -> length v = d ->
  nd_binop f (mk_ndarray (outer ++ [1]) cs) (mk_ndarray [d] v)
  = Ok (of_rows outer d (map (fun c => map (f c) v) cs)).
Proof. intros L E. subst d. now apply binop_col_vec. Qed.

Lemma reduce_last_rows (g : list A -> A) (outer : list nat) (d : nat)
    (rs : list (list A)) :
  row_list outer d rs ->
  reduce_last g (of_rows outer d rs) = Ok (mk_ndarray (outer ++ [1]) (map g rs)).
Proof.
  intros R. unfold reduce_last. rewrite (rows_of_rows _ _ _ R).
  unfold of_rows. cbn [shape].
  destruct (outer ++ [d]) eqn:E.
  - now destruct outer.
  - now rewrite <- E, removelast_last.
Qed.
End RowFacts.

(** ** One concept, position by position *)

Section SteerRows.
Context {A : Type} `{Scalar A}.

Lemma map2_map_r {B C : Type} (g : B -> C -> B) (h : B -> C) (rs : list B) :
  map2 g rs (map h rs) = map (fun r => g r (h r)) rs.
Proof. induction rs as [|r rs IH]; simpl; [reflexivity|]. now rewrite IH. Qed.

Lemma map2_map_l {B C D : Type} (g : C -> D -> B) (h : B -> C) (rs : list B)
    (ns : list D) :
  map2 g (map h rs) ns = map2 (fun r n => g (h r) n) rs ns.
Proof.
  revert ns. induction rs as [|r rs IH]; intros [|n ns]; simpl;
    try reflexivity. now rewrite IH.
Qed.

Lemma length_axpy (g : A) (v r : list A) (d : nat) :
  length v = d -> length r = d -> length (axpy g v r) = d.
Proof.
  intros Ev Er. unfold axpy. rewrite map2_length; [exact Er|].
  rewrite length_map. congruence.
Qed.

Lemma length_strategy_row (c : SteeringController A) (layer : string) (s : A)
    (v r : list A) (d : nat) :
  length v = d -> length r = d -> length (strategy_row c layer s v r) = d.
Proof.
  intros Ev Er. unfold strategy_row, additive_row, projection_row, hspace_row.
  destruct (strategy c).
  - now apply length_axpy.
  - apply length_axpy; [exact Ev|].
    rewrite map2_length; [exact Er|]. rewrite length_map. congruence.
  - destruct (String.eqb layer "mid"); [now apply length_axpy | exact Er].
Qed.

Lemma fits_inv (d : nat) (cv : ConceptVector A) :
  fits d cv = true ->
  vector cv = mk_ndarray [d] (data (vector cv))
  /\ length (data (vector cv)) = d.
Proof.
  unfold fits. destruct (vector cv) as [sh l]. simpl.
  destruct sh as [|m [|m' sh]]; try discriminate.
  rewrite andb_true_iff, !Nat.eqb_eq. intros [-> E]. auto.
Qed.

(** A vector of the row length is used as it is. *)
Lemma reconcile_fits (outer : list nat) (d : nat) (v : list A) :
  reconcile (mk_ndarray [d] v) (outer ++ [d]) = Ok (Some (mk_ndarray [d] v)).
Proof.
  unfold reconcile. cbn [shape]. rewrite shape_last_snoc.
  change [d] with ([] ++ [d]). rewrite shape_last_snoc. simpl.
  now rewrite Nat.eqb_refl.
Qed.

(** The array code of one transform against its formula. *)
Lemma apply_strategy_rows (c : SteeringController A) (layer : string)
    (outer : list nat) (d : nat) (rs : list (list A)) (v : list A) (s : A) :
  row_list outer d rs -> length v = d ->
  apply_strategy c layer (of_rows outer d rs) (mk_ndarray [d] v) s
  = Ok (of_rows outer d (map (strategy_row c layer s v) rs)).
Proof.
  intros R Ev.
  assert (Lm : forall g, length (map (fmul g) v) = d)
    by (intros g; now rewrite length_map).
  unfold apply_strategy, strategy_row. destruct (strategy c).
  - unfold nd_add, scalar_mul, nd_map. cbn [shape data].
    now rewrite binop_vec' by auto.
  - unfold nd_mul, nd_sub, nd_add, sum_last, scalar_mul, nd_map.
    cbn [shape data].
    rewrite binop_vec' by auto. cbn [bind].
    rewrite reduce_last_rows.
    2:{ apply row_list_map; [|exact R]. intros r Er.
        rewrite map2_length; congruence. }
    cbn [bind].
    rewrite binop_col_vec' by (rewrite ?length_map; destruct R; auto).
    cbn [bind].
    rewrite binop_same; [|exact R|].
    2:{ apply row_list_map_col; [|rewrite !length_map; now destruct R].
        intros x. now rewrite length_map. }
    cbn [bind].
    rewrite binop_vec'; auto.
    2:{ apply row_list_map2; auto.
        - intros r r' Er Er'. rewrite map2_length; congruence.
        - apply row_list_map_col; [|rewrite !length_map; now destruct R].
          intros x. now rewrite length_map. }
    do 2 f_equal. rewrite !map_map, map2_map_r, map_map. reflexivity.
  - unfold hspace_row. destruct (String.eqb layer "mid").
    + unfold nd_add, scalar_mul, nd_map. cbn [shape data].
      now rewrite binop_vec' by auto.
    + now rewrite map_id.
Qed.

Lemma steer_concept_rows (c : SteeringController A) (x : ndarray A)
    (layer : string) (outer : list nat) (d : nat) (rs : list (list A))
    (nm : string) (cv : ConceptVector A) :
  shape x = outer ++ [d] -> row_list outer d rs ->
  dict_get nm (concepts c) = Some cv -> fits d cv = true ->
  steer_concept c x layer (of_rows outer d rs) nm
  = Ok (of_rows outer d
          (map (strategy_row c layer (strength cv) (data (vector cv))) rs)).
Proof.
  intros Sx R G F. destruct (fits_inv d cv F) as [Ev Lv].
  unfold steer_concept. rewrite G, Sx, Ev. cbn [data].
  rewrite reconcile_fits. cbn [bind]. now apply apply_strategy_rows.
Qed.

(** The loop of [steer] against [steer_rows]. *)
Lemma steer_loop_rows (c : SteeringController A) (x : ndarray A)
    (layer : string) (outer : list nat) (d : nat) (names : list string) :
  shape x = outer ++ [d] ->
  forallb (fun nm => match dict_get nm (concepts c) with
                     | None => true
                     | Some cv => fits d cv
                     end) names = true ->
  forall rs, row_list outer d rs ->
  steer_loop c x layer (of_rows outer d rs) names
  = Ok (of_rows outer d (steer_rows c layer rs names))
  /\ row_list outer d (steer_rows c layer rs names).
Proof.
  intros Sx. induction names as [|nm names IH]; intros F rs R.
  - simpl. auto.
  - cbn [forallb] in F. apply andb_true_iff in F. destruct F as [Fn F].
    cbn [steer_loop steer_rows].
    destruct (dict_get nm (concepts c)) as [cv|] eqn:G.
    + rewrite (steer_concept_rows c x layer outer d rs nm cv Sx R G Fn).
      cbn [bind]. apply IH; [exact F|].
      apply row_list_map; [|exact R]. intros r Er.
      apply length_strategy_row; [|exact Er].
      now destruct (fits_inv d cv Fn).
    + unfold steer_concept. rewrite G. cbn [bind]. now apply IH.
Qed.

(** The rescaling against [renorm_row]. *)
Lemma renormalize_rows (outer : list nat) (d : nat) (rs : list (list A))
    (ns : list A) :
  row_list outer d rs -> length ns = size_of outer ->
  renormalize (mk_ndarray (outer ++ [1]) ns) (of_rows outer d rs)
  = Ok (of_rows outer d (map2 (fun r n => renorm_row n r) rs ns))
  /\ row_list outer d (map2 (fun r n => renorm_row n r) rs ns).
Proof.
  intros R Ln.
  assert (R' : row_list outer d
                 (map (fun r => map (fun x => fdiv x (fadd (l2 r) feps)) r) rs)).
  { apply row_list_map; [|exact R]. intros r Er. now rewrite length_map. }
  split.
  - unfold renormalize, norm_last, nd_div, nd_mul, add_scalar, nd_map.
    rewrite reduce_last_rows by exact R. cbn [bind shape data].
    rewrite binop_col; [|exact R|rewrite !length_map; now destruct R].
    cbn [bind]. rewrite map_map, map2_map_r.
    rewrite binop_col by auto.
    do 2 f_equal. rewrite map2_map_l. unfold renorm_row.
    clear. revert ns. induction rs as [|r rs IH]; intros [|n ns]; simpl;
      try reflexivity.
    rewrite IH, map_map. reflexivity.
  - apply row_list_map2_col; auto. intros r n Er. unfold renorm_row.
    now rewrite length_map.
Qed.

(** [steer] on an array of rows, when every active concept in the catalog
    has a vector of the row length. *)
Lemma steer_rows_spec (c : SteeringController A) (x : ndarray A)
    (layer : string) (t : Z) (outer : list nat) (d : nat) :
  active_concepts c <> [] ->
  shape x = outer ++ [d] -> wf_ndarray x = true ->
  catalog_fits c d = true ->
  let steered := steer_rows c layer (rows x) (active_concepts c) in
  steer_loop c x layer x (active_concepts c) = Ok (of_rows outer d steered)
  /\ row_list outer d steered
  /\ steer c x layer t
     = Ok (of_rows outer d
             (if normalize c
              then map2 (fun r n => renorm_row n r) steered (map l2 (rows x))
              else steered))
  /\ row_list outer d
       (map2 (fun r n => renorm_row n r) steered (map l2 (rows x))).
Proof.
  intros Na Sx W F steered.
  destruct (of_rows_rows outer d x Sx W) as [Ex Rx].
  destruct (steer_loop_rows c x layer outer d (active_concepts c) Sx F
              (rows x) Rx) as [L Rs].
  fold steered in L, Rs. rewrite <- Ex in L.
  destruct (renormalize_rows outer d steered (map l2 (rows x)) Rs) as [N Rn].
  { rewrite length_map. now destruct Rx. }
  split; [exact L|]. split; [exact Rs|]. split; [|exact Rn].
  unfold steer. destruct (active_concepts c) as [|nm rest] eqn:Ea;
    [now contradiction Na|].
  unfold norm_last at 1. rewrite Ex at 1.
  rewrite reduce_last_rows by exact Rx. cbn [bind].
  rewrite L. cbn [bind]. destruct (normalize c); [exact N | reflexivity].
Qed.
End SteerRows.

(** ** Shape reconciliation *)

Section Reconcile.
Context {A : Type} `{Scalar A}.

Lemma shape_eqb_eq (s t : list nat) : shape_eqb s t = true <-> s = t.
Proof.
  revert t. induction s as [|a s IH]; intros [|b t]; simpl;
    try (split; [discriminate | congruence]); [tauto|].
  rewrite andb_true_iff, Nat.eqb_eq, IH. split; [intros []|intros [=]];
    subst; auto.
Qed.

Lemma shape_eqb_refl (s : list nat) : shape_eqb s s = true.
Proof. now apply shape_eqb_eq. Qed.

Lemma broadcast_vec_other (outer : list nat) (d m : nat) :
  m <> d -> m <> 1 ->
  broadcast_shapes [m] (outer ++ [d])
  = if d =? 1 then Some (outer ++ [m]) else None.
Proof.
  intros Nd N1. unfold broadcast_shapes. rewrite rev_app_distr.
  cbn [rev app broadcast_rev].
  apply Nat.eqb_neq in Nd, N1. rewrite Nd, N1.
  destruct (d =? 1); [|reflexivity].
  cbn [option_map rev]. now rewrite rev_involutive.
Qed.

(** A 1-D vector whose length is neither the trailing dimension nor 1 makes
    [np.broadcast_to] raise. *)
Lemma broadcast_to_mismatch (outer : list nat) (d m : nat) (v : list A) :
  m <> d -> m <> 1 ->
  broadcast_to (mk_ndarray [m] v) (outer ++ [d]) = Raise ValueError.
Proof.
  intros Nd N1. unfold broadcast_to. cbn [shape].
  rewrite broadcast_vec_other by assumption.
  destruct (d =? 1); [|reflexivity].
  destruct (shape_eqb (outer ++ [m]) (outer ++ [d])) eqn:E; [|reflexivity].
  apply shape_eqb_eq, app_inv_head in E. congruence.
Qed.

Lemma reconcile_vector_mismatch (outer : list nat) (d m : nat) (v : list A) :
  m <> d -> m <> 1 ->
  reconcile (mk_ndarray [m] v) (outer ++ [d]) = Raise ValueError.
Proof.
  intros Nd N1. unfold reconcile, ndim. cbn [shape bind length].
  rewrite shape_last_snoc. change [m] with ([] ++ [m]).
  rewrite shape_last_snoc. cbn [bind app].
  apply Nat.eqb_neq in Nd. rewrite Nd. cbn [negb Nat.eqb].
  apply Nat.eqb_neq in Nd. now rewrite broadcast_to_mismatch.
Qed.

(** A vector of two or more dimensions with another trailing dimension is
    skipped. *)
Lemma reconcile_skips (outer vouter : list nat) (d m : nat) (v : list A) :
  m <> d -> vouter <> [] ->
  reconcile (mk_ndarray (vouter ++ [m]) v) (outer ++ [d]) = Ok None.
Proof.
  intros Nd Nv. unfold reconcile, ndim. cbn [shape].
  rewrite !shape_last_snoc. cbn [bind].
  apply Nat.eqb_neq in Nd. rewrite Nd. cbn [negb].
  rewrite length_app. simpl.
  destruct vouter as [|a vo]; [contradiction|]. simpl.
  replace (length vo + 1) with (S (length vo)) by lia. reflexivity.
Qed.

Lemma broadcast_one (outer : list nat) (d : nat) :
  broadcast_shapes [1] (outer ++ [d]) = Some (outer ++ [d]).
Proof.
  unfold broadcast_shapes. rewrite rev_app_distr.
  cbn [rev app broadcast_rev].
  destruct (1 =? d) eqn:E.
  - apply Nat.eqb_eq in E. subst d. cbn [option_map rev].
    now rewrite rev_involutive.
  - cbn [Nat.eqb option_map rev]. now rewrite rev_involutive.
Qed.

Lemma concat_repeat_repeat (a : A) (n m : nat) :
  concat (repeat (repeat a n) m) = repeat a (m * n).
Proof.
  induction m as [|m IH]; simpl; [reflexivity|].
  now rewrite IH, repeat_app.
Qed.

Lemma expand_ones (t : list nat) (a : A) :
  expand (repeat 1 (length t)) t [a] = repeat a (size_of t).
Proof.
  induction t as [|b t IH]; [reflexivity|].
  cbn [length repeat expand]. rewrite size_of_ones.
  destruct (1 =? b) eqn:E.
  - apply Nat.eqb_eq in E. subst b.
    cbn [chunks firstn map concat]. rewrite IH, app_nil_r.
    simpl. now rewrite Nat.add_0_r.
  - rewrite IH. apply concat_repeat_repeat.
Qed.

(** A vector of length 1 is stretched over the whole activation shape. *)
Lemma reconcile_stretches_one (outer : list nat) (d : nat) (a : A) :
  d <> 1 ->
  reconcile (mk_ndarray [1] [a]) (outer ++ [d])
  = Ok (Some (mk_ndarray (outer ++ [d]) (repeat a (size_of (outer ++ [d]))))).
Proof.
  intros N. unfold reconcile, ndim. cbn [shape length].
  change [1] with ([] ++ [1]) at 1. rewrite !shape_last_snoc. cbn [bind].
  assert (E : (1 =? d) = false) by (apply Nat.eqb_neq; lia).
  rewrite E. cbn [negb Nat.eqb].
  unfold broadcast_to. cbn [shape].
  rewrite broadcast_one, shape_eqb_refl. cbn [bind]. do 3 f_equal.
  unfold stretch, pad_shape. cbn [shape data length].
  replace (repeat 1 (length (outer ++ [d]) - 1) ++ [1])
    with (repeat 1 (length (outer ++ [d]))); [apply expand_ones|].
  rewrite length_app. cbn [length].
  replace (length outer + 1 - 1) with (length outer) by lia.
  now rewrite repeat_app.
Qed.
End Reconcile.

(** ** The steering transform *)

Section SteerFacts.
Context {A : Type} `{Scalar A}.

(** With strategy hspace and a layer other than "mid" an iteration changes
    nothing, as long as shape reconciliation does not raise. *)
Lemma steer_loop_hspace_off_mid (c : SteeringController A) (x : ndarray A)
    (layer : string) (names : list string) (steered : ndarray A) :
  strategy c = HSPACE -> layer <> "mid"%string ->
  forallb (fun nm => match dict_get nm (concepts c) with
                     | None => true
                     | Some cv => negb (raises (reconcile (vector cv) (shape x)))
                     end) names = true ->
  steer_loop c x layer steered names = Ok steered.
Proof.
  intros St Nl. induction names as [|nm names IH]; intros F; [reflexivity|].
  cbn [forallb] in F. apply andb_true_iff in F. destruct F as [Fn F].
  cbn [steer_loop]. unfold steer_concept.
  destruct (dict_get nm (concepts c)) as [cv|]; cbn [bind]; [|now apply IH].
  destruct (reconcile (vector cv) (shape x)) as [[v|]|e]; cbn [bind];
    try discriminate Fn; [|now apply IH].
  unfold apply_strategy. rewrite St.
  apply String.eqb_neq in Nl. rewrite Nl. cbn [bind]. now apply IH.
Qed.

(** For a well-formed input the rescaling of the untouched tensor takes every
    row [r] to [r / (|r| + 1e-8) * |r|]. *)
Lemma renormalize_self_rows (x : ndarray A) (outer : list nat) (d : nat) :
  shape x = outer ++ [d] -> wf_ndarray x = true ->
  (n <- norm_last x ;; renormalize n x)
  = Ok (of_rows outer d (map (fun r => renorm_row (l2 r) r) (rows x))).
Proof.
  intros Sx W. destruct (of_rows_rows outer d x Sx W) as [Ex Rx].
  remember (rows x) as rs eqn:Ers. clear Ers. subst x.
  unfold norm_last at 1.
  rewrite reduce_last_rows by exact Rx. cbn [bind].
  destruct (renormalize_rows outer d rs (map l2 rs) Rx) as [N _].
  { rewrite length_map. now destruct Rx. }
  rewrite N. now rewrite map2_map_r.
Qed.

(** C2 (as amended): with strategy hspace, on every layer other than "mid",
    for a well-formed input with at least one axis and active concepts whose
    shape reconciliation does not raise, the loop of [steer] leaves the
    tensor as it is.  So [steer] returns the input unchanged when
    [normalize] is false; when [normalize] is true and a concept is active
    it returns the input rescaled, every position [r] taken to
    [r / (|r| + 1e-8) * |r|]. *)
Theorem hspace_off_mid (c : SteeringController A) (x : ndarray A)
    (layer : string) (t : Z) (outer : list nat) (d : nat) :
  strategy c = HSPACE -> layer <> "mid"%string ->
  shape x = outer ++ [d] -> wf_ndarray x = true -> reconciles c x = true ->
  steer_loop c x layer x (active_concepts c) = Ok x
  /\ (normalize c = false -> steer c x layer t = Ok x)
  /\ (normalize c = true -> active_concepts c <> [] ->
      steer c x layer t
      = Ok (of_rows outer d (map (fun r => renorm_row (l2 r) r) (rows x)))).
Proof.
  intros St Nl Sx W R.
  pose proof (steer_loop_hspace_off_mid c x layer (active_concepts c) x St Nl R)
    as L.
  split; [exact L|].
  pose proof (renormalize_self_rows x outer d Sx W) as N.
  destruct (norm_last x) as [n|e] eqn:En; [|discriminate N]. cbn [bind] in N.
  unfold steer. split; intros Nz.
  - destruct (active_concepts c) eqn:Ea; [reflexivity|].
    rewrite En, L, Nz. reflexivity.
  - intros Na. destruct (active_concepts c) eqn:Ea; [contradiction|].
    rewrite En, L, Nz. exact N.
Qed.

Lemma dict_get_set_same {V : Type} (k : string) (v : V) (d : dict V) :
  dict_get k (dict_set k v d) = Some v.
Proof.
  induction d as [|[k' v'] d IH]; simpl.
  - now rewrite String.eqb_refl.
  - destruct (String.eqb k k') eqn:E; simpl; rewrite ?String.eqb_refl, ?E; auto.
Qed.

Lemma nth_map2 {B C D : Type} (g : B -> C -> D) (rs : list B) (ns : list C)
    (i : nat) (db : B) (dc : C) (dd : D) :
  i < length rs -> i < length ns ->
  nth i (map2 g rs ns) dd = g (nth i rs db) (nth i ns dc).
Proof.
  revert ns i. induction rs as [|r rs IH]; intros [|n ns] [|i] Lr Ln;
    simpl in *; try lia; [reflexivity|].
  apply IH; lia.
Qed.
End SteerFacts.

Lemma hspace_off_mid_witness :
  steer_loop (engine_with HSPACE 10 2 false [1; 0] 1)%float (vec [1; 0]%float)
    "down" (vec [1; 0]%float) ["a"%string] = Ok (vec [1; 0]%float)
  /\ steer (engine_with HSPACE 10 2 false [1; 0] 1)%float (vec [1; 0]%float)
       "down" 0 = Ok (vec [1; 0]%float).
Proof.
  destruct (hspace_off_mid (engine_with HSPACE 10 2 false [1; 0] 1)%float
              (vec [1; 0]%float) "down" 0 [] 2) as [L [N _]];
    try reflexivity; try discriminate.
  split; [exact L | apply N; reflexivity].
Defined.

(** C2, counterexample: strategy hspace, layer "down", [normalize] true, the
    unit concept [(1, 0)] active, input [(1, 0)]: the result is not the
    input. *)
Lemma hspace_off_mid_rescales :
  steer (engine_with HSPACE 10 2 true [1; 0] 1)%float (vec [1; 0]%float)
    "down" 0 = Ok (vec [0.99999999000000017; 0]%float)
  /\ steer (engine_with HSPACE 10 2 true [1; 0] 1)%float (vec [1; 0]%float)
       "down" 0 <> Ok (vec [1; 0]%float).
Proof.
  assert (E : steer (engine_with HSPACE 10 2 true [1; 0] 1)%float
                (vec [1; 0]%float) "down" 0
              = Ok (vec [0.99999999000000017; 0]%float))
    by (vm_compute; reflexivity).
  split; [exact E|]. rewrite E. intros Q.
  apply (f_equal (fun r => match r with
                           | Ok a => same_floats (data a) [1; 0]%float
                           | Raise _ => true
                           end)) in Q.
  vm_compute in Q. discriminate Q.
Qed.

(** C1, the failing input: the engine holds the 1-D vector [(1, 0, 0)] as an
    active concept and is given the activation [(0, 0)]; [np.broadcast_to]
    raises ValueError and [steer] with it. *)
Theorem steer_raises_on_vector_mismatch :
  steer (engine_with ADDITIVE 10 2 false [1; 0; 0] 1)%float (vec [0; 0]%float)
    "mid" 0 = Raise ValueError.
Proof. vm_compute. reflexivity. Qed.

(** The two cases that do what C1 describes: a vector of length 1 is
    stretched, and a 2-D vector with another trailing dimension is skipped. *)
Example steer_stretches_length_one :
  steer (engine_with ADDITIVE 10 2 false [3] 1)%float
    (mk_ndarray [2; 2] [0; 0; 1; 1]%float) "mid" 0
  = Ok (mk_ndarray [2; 2] [10; 10; 11; 11]%float).
Proof. vm_compute. reflexivity. Qed.

Example steer_skips_matrix :
  steer (activate_concept
           (add_concept (fresh_engine ADDITIVE 10 2 false)%float
              (mk_ConceptVector "a" (mk_ndarray [2; 3] [1; 0; 0; 0; 1; 0]%float)
                 1%float []))
           "a" None)
    (vec [7; 8]%float) "mid" 0
  = Ok (vec [7; 8]%float).
Proof. vm_compute. reflexivity. Qed.


(** The library alone. *)
Lemma library_stores_vector_as_given :
  get_concept demo_library "a" = Some (concept_of "a" [2; 0]%float 1%float)
  /\ norm (vec [2; 0]%float) = 2%float
  /\ PrimFloat.ltb 1e-6 (PrimFloat.abs (2 - 1)) = true.
Proof. repeat split. Qed.

(** In binary64 the engine stores [(3, 4)] as [(0.6, 0.8)] up to rounding,
    with computed norm 1.  A vector whose squared norm overflows is stored as
    0, and one whose squared norm underflows to 0 is stored as given. *)
Example normalized_float :
  normalized (vec [3; 4]%float)
  = vec [0.59999999999999998; 0.80000000000000004]%float
  /\ norm (normalized (vec [3; 4]%float)) = 1%float.
Proof. vm_compute. split; reflexivity. Qed.

Example normalized_float_overflow :
  normalized (vec [1e200; 0]%float) = vec [0; 0]%float
  /\ normalized (vec [1e-200; 0]%float) = vec [1e-200; 0]%float.
Proof. vm_compute. split; reflexivity. Qed.

(** Comparisons with 0 in binary64: [s < 0] excludes [0 <= s], and a
    number equal to 0 is not greater than 0. *)
Lemma float_ltb_zero_not_leb (s : float) :
  PrimFloat.ltb s 0 = true -> PrimFloat.leb 0 s = false.
Proof.
  rewrite FloatAxioms.ltb_spec, FloatAxioms.leb_spec.
  change (FloatOps.Prim2SF 0) with (SpecFloat.S754_zero false).
  destruct (FloatOps.Prim2SF s) as [[|]|[|]| |[|] m e]; cbn; congruence.
Qed.

Lemma float_eqb_zero_not_ltb (n : float) :
  PrimFloat.eqb n 0 = true -> PrimFloat.ltb 0 n = false.
Proof.
  rewrite FloatAxioms.eqb_spec, FloatAxioms.ltb_spec.
  change (FloatOps.Prim2SF 0) with (SpecFloat.S754_zero false).
  destruct (FloatOps.Prim2SF n) as [[|]|[|]| |[|] m e]; cbn; congruence.
Qed.


Section Rescaling.
Context {A : Type} `{Scalar A}.

End Rescaling.


(** ** The strategies *)

Section StrategyLoop.
Context {A : Type} `{Scalar A}.

Lemma fold_left_ext {B C : Type} (f g : B -> C -> B) (l : list C) :
  (forall b x, f b x = g b x) -> forall b, fold_left f l b = fold_left g l b.
Proof.
  intros E. induction l as [|x l IH]; intros b; [reflexivity|].
  cbn [fold_left]. now rewrite E, IH.
Qed.

(** [steer_rows] position by position: every position goes through the
    transforms of the applied concepts, in their order. *)
Lemma steer_rows_fold (c : SteeringController A) (layer : string)
    (names : list string) :
  forall rs,
    steer_rows c layer rs names
    = map (fun r =>
             fold_left
               (fun r' cv =>
                  strategy_row c layer (strength cv) (data (vector cv)) r')
               (named_concepts c names) r) rs.
Proof.
  induction names as [|nm names IH]; intros rs.
  - cbn [steer_rows named_concepts flat_map fold_left]. now rewrite map_id.
  - cbn [steer_rows named_concepts flat_map].
    destruct (dict_get nm (concepts c)) as [cv|].
    + rewrite IH, map_map. reflexivity.
    + rewrite IH. reflexivity.
Qed.

Lemma steer_each_applied (c : SteeringController A) (x : ndarray A)
    (layer : string) (t : Z) (outer : list nat) (d : nat)
    (step : ConceptVector A -> list A -> list A) :
  (forall cv r,
      strategy_row c layer (strength cv) (data (vector cv)) r = step cv r) ->
  active_concepts c <> [] ->
  shape x = outer ++ [d] -> wf_ndarray x = true -> catalog_fits c d = true ->
  steer_loop c x layer x (active_concepts c)
  = Ok (of_rows outer d (each_applied c step (rows x)))
  /\ (normalize c = false ->
      steer c x layer t = Ok (of_rows outer d (each_applied c step (rows x)))).
Proof.
  intros E Na Sx W F.
  destruct (steer_rows_spec c x layer t outer d Na Sx W F) as [L [_ [S _]]].
  assert (Q : steer_rows c layer (rows x) (active_concepts c)
              = each_applied c step (rows x)).
  { rewrite steer_rows_fold. unfold each_applied, applied_concepts.
    apply map_ext. intros r. apply fold_left_ext. intros b cv. apply E. }
  rewrite Q in L, S. split; [exact L|].
  intros Nz. now rewrite Nz in S.
Qed.
End StrategyLoop.



(** ** The theorems at concrete inputs *)



(** The values at that input: the steered tensor [(13, 4)] is scaled back to
    norm 5 up to rounding. *)
Example steer_rescales_float :
  steer (engine_with ADDITIVE 10 2 true [1; 0] 1)%float (vec [3; 4]%float)
    "mid" 0
  = Ok (vec [4.7788950400962369; 1.4704292431065344]%float).
Proof. vm_compute. reflexivity. Qed.



(** The loop applies every active concept, not only the first: from the zero
    input the two unit concepts give [(10, 10)]. *)
Example additive_two_concepts :
  steer (engine_with2 ADDITIVE 10 2 false [1; 0] 1 [0; 1] 1)%float
    (vec [0; 0]%float) "mid" 0
  = Ok (vec [10; 10]%float).
Proof. vm_compute. reflexivity. Qed.

(* ================================================================== *)
(** * Further properties of the code *)

(** ** Dictionaries and name lists *)

Lemma filter_id_on {B : Type} (f : B -> bool) (l : list B) :
  (forall x, In x l -> f x = true) -> filter f l = l.
Proof.
  induction l as [|y l IH]; simpl; intros F; [reflexivity|].
  rewrite (F y) by now left. f_equal. apply IH. intros x I. apply F. now right.
Qed.

Lemma filter_none_on {B : Type} (f : B -> bool) (l : list B) :
  (forall x, In x l -> f x = false) -> filter f l = [].
Proof.
  induction l as [|y l IH]; simpl; intros F; [reflexivity|].
  rewrite (F y) by now left. apply IH. intros x I. apply F. now right.
Qed.

Section DictFacts.
Context {V : Type}.

Lemma dict_mem_In (k : string) (d : dict V) :
  dict_mem k d = true <-> In k (dict_keys d).
Proof.
  unfold dict_mem. induction d as [|[k' v] d IH]; simpl.
  - split; [discriminate | intros []].
  - destruct (String.eqb_spec k k') as [->|N].
    + split; auto.
    + rewrite IH. split; [now right | intros [E|I]; [congruence | exact I]].
Qed.

Lemma dict_get_None (k : string) (d : dict V) :
  dict_get k d = None <-> ~ In k (dict_keys d).
Proof.
  rewrite <- dict_mem_In. unfold dict_mem.
  destruct (dict_get k d); split; intros N; try reflexivity;
    try discriminate.
  now contradiction N.
Qed.

Lemma dict_get_set_other (k k' : string) (v : V) (d : dict V) :
  k <> k' -> dict_get k (dict_set k' v d) = dict_get k d.
Proof.
  intros N. induction d as [|[k2 v2] d IH]; simpl.
  - apply String.eqb_neq in N. now rewrite N.
  - destruct (String.eqb_spec k' k2) as [->|N2]; simpl.
    + apply String.eqb_neq in N. now rewrite N.
    + now rewrite IH.
Qed.

(** Assigning to a key keeps the order of the keys; a new key goes last. *)
Lemma dict_keys_set (k : string) (v : V) (d : dict V) :
  dict_keys (dict_set k v d)
  = if dict_mem k d then dict_keys d else dict_keys d ++ [k].
Proof.
  unfold dict_mem. induction d as [|[k' v'] d IH]; simpl; [reflexivity|].
  destruct (String.eqb_spec k k') as [->|N]; simpl; [reflexivity|].
  rewrite IH. now destruct (dict_get k d).
Qed.

Lemma dict_keys_set_NoDup (k : string) (v : V) (d : dict V) :
  NoDup (dict_keys d) -> NoDup (dict_keys (dict_set k v d)).
Proof.
  intros N. rewrite dict_keys_set. destruct (dict_mem k d) eqn:E; [exact N|].
  apply NoDup_app; [exact N | repeat constructor; intros [] |].
  intros x I [<-|[]].
  apply dict_mem_In in I. congruence.
Qed.

Lemma dict_keys_del (k : string) (d : dict V) :
  NoDup (dict_keys d) ->
  dict_keys (dict_del k d)
  = filter (fun x => negb (String.eqb k x)) (dict_keys d).
Proof.
  induction d as [|[k' v'] d IH]; simpl; [reflexivity|].
  intros N. inversion N as [|? ? Nk Nd]; subst.
  destruct (String.eqb_spec k k') as [->|Ne]; simpl.
  - symmetry. apply filter_id_on. intros x I.
    destruct (String.eqb_spec k' x) as [->|]; [contradiction | reflexivity].
  - now rewrite IH.
Qed.

Lemma dict_get_del_other (k k' : string) (d : dict V) :
  k <> k' -> dict_get k (dict_del k' d) = dict_get k d.
Proof.
  intros N. induction d as [|[k2 v2] d IH]; simpl; [reflexivity|].
  destruct (String.eqb_spec k' k2) as [->|N2]; simpl.
  - apply String.eqb_neq in N. now rewrite N.
  - now rewrite IH.
Qed.

Lemma dict_get_del_same (k : string) (d : dict V) :
  NoDup (dict_keys d) -> dict_get k (dict_del k d) = None.
Proof.
  intros N. apply dict_get_None. rewrite dict_keys_del by exact N.
  rewrite filter_In. intros [_ E]. now rewrite String.eqb_refl in E.
Qed.
End DictFacts.

Section NameFacts.

Lemma remove_first_filter (x : string) (l : list string) :
  NoDup l -> remove_first x l = filter (fun y => negb (String.eqb x y)) l.
Proof.
  induction l as [|y l IH]; simpl; [reflexivity|].
  intros N. inversion N as [|? ? Ny Nl]; subst.
  destruct (String.eqb_spec x y) as [->|Ne]; simpl.
  - symmetry. apply filter_id_on. intros z I.
    destruct (String.eqb_spec y z) as [->|]; [contradiction | reflexivity].
  - now rewrite IH.
Qed.

Lemma NoDup_filter_names (f : string -> bool) (l : list string) :
  NoDup l -> NoDup (filter f l).
Proof. apply NoDup_filter. Qed.

Lemma mem_false (x : string) (l : list string) : mem x l = false <-> ~ In x l.
Proof.
  rewrite <- mem_In. destruct (mem x l); split; intros N; try reflexivity;
    try discriminate.
  now contradiction N.
Qed.
End NameFacts.

(** ** The engine's catalog and active list *)

Section EngineOps.
Context {A : Type} `{Scalar A}.

(** X1: [activate_concept] ignores a name that is not in the catalog.  For a
    catalogued name it appends the name to the active list unless it is
    there already, overwrites that concept's strength when one is given,
    and leaves its vector, the other concepts and the order of the catalog as
    they were. *)
Theorem activate_concept_spec (c : SteeringController A) (nm : string)
    (s : option A) :
  (dict_get nm (concepts c) = None -> activate_concept c nm s = c)
  /\ (forall cv, dict_get nm (concepts c) = Some cv ->
      active_concepts (activate_concept c nm s)
      = (if mem nm (active_concepts c) then active_concepts c
         else active_concepts c ++ [nm])
      /\ dict_get nm (concepts (activate_concept c nm s))
         = Some (match s with Some x => set_strength cv x | None => cv end)
      /\ (forall k, k <> nm ->
          dict_get k (concepts (activate_concept c nm s))
          = dict_get k (concepts c))
      /\ dict_keys (concepts (activate_concept c nm s))
         = dict_keys (concepts c)).
Proof.
  unfold activate_concept. split.
  - intros E. now rewrite E.
  - intros cv E. rewrite E.
    assert (M : dict_mem nm (concepts c) = true)
      by (unfold dict_mem; now rewrite E).
    destruct s as [x|]; cbn [active_concepts concepts set_concepts].
    + destruct (mem nm (active_concepts c));
        cbn [active_concepts concepts set_concepts set_active];
        (split; [reflexivity|]); (split; [apply dict_get_set_same|]);
        (split; [intros k N; now apply dict_get_set_other|]);
        now rewrite dict_keys_set, M.
    + destruct (mem nm (active_concepts c));
        cbn [active_concepts concepts set_active]; auto.
Qed.

Lemma NoDup_snoc (x : string) (l : list string) :
  NoDup l -> ~ In x l -> NoDup (l ++ [x]).
Proof.
  intros N I. apply NoDup_app; [exact N | repeat constructor; intros [] |].
  intros y Iy [<-|[]]. contradiction.
Qed.

Lemma activate_concept_ok (c : SteeringController A) (nm : string)
    (s : option A) :
  engine_ok c -> engine_ok (activate_concept c nm s).
Proof.
  intros [Nk [Na M]]. unfold activate_concept.
  destruct (dict_get nm (concepts c)) as [cv|] eqn:E; [|now repeat split].
  assert (Mn : dict_mem nm (concepts c) = true)
    by (unfold dict_mem; now rewrite E).
  assert (Mk : forall v k, dict_mem k (concepts c) = true ->
                 dict_mem k (dict_set nm v (concepts c)) = true).
  { intros v k I. apply dict_mem_In. rewrite dict_keys_set, Mn.
    now apply dict_mem_In. }
  destruct s as [x|]; cbn [active_concepts concepts set_concepts];
    destruct (mem nm (active_concepts c)) eqn:Em;
    unfold engine_ok; cbn [active_concepts concepts set_concepts set_active];
    rewrite ?dict_keys_set, ?Mn; (split; [exact Nk|]).
  - split; [exact Na|]. intros k I. now apply Mk, M.
  - apply mem_false in Em. split; [now apply NoDup_snoc|].
    intros k I. apply Mk. apply in_app_or in I.
    destruct I as [I|[<-|[]]]; [now apply M | exact Mn].
  - now split.
  - apply mem_false in Em. split; [now apply NoDup_snoc|].
    intros k I. apply in_app_or in I.
    destruct I as [I|[<-|[]]]; [now apply M | exact Mn].
Qed.

Lemma add_concept_ok (c : SteeringController A) (cv : ConceptVector A) :
  engine_ok c -> engine_ok (add_concept c cv).
Proof.
  intros [Nk [Na M]]. unfold engine_ok, add_concept.
  cbn [concepts active_concepts set_concepts set_vector name].
  split; [now apply dict_keys_set_NoDup|]. split; [exact Na|].
  intros k I. apply dict_mem_In. rewrite dict_keys_set.
  pose proof (proj1 (dict_mem_In k (concepts c)) (M k I)) as Ik.
  destruct (dict_mem (name cv) (concepts c)); [exact Ik|].
  apply in_or_app. now left.
Qed.

Lemma deactivate_concept_ok (c : SteeringController A) (nm : string) :
  engine_ok c -> engine_ok (deactivate_concept c nm).
Proof.
  intros [Nk [Na M]]. unfold deactivate_concept.
  destruct (mem nm (active_concepts c)); [|now repeat split].
  unfold engine_ok. cbn [concepts active_concepts set_active].
  rewrite remove_first_filter by exact Na.
  split; [exact Nk|]. split; [now apply NoDup_filter|].
  intros k I. apply filter_In in I. now apply M.
Qed.

Lemma remove_concept_ok (c : SteeringController A) (nm : string) :
  engine_ok c -> engine_ok (remove_concept c nm).
Proof.
  intros [Nk [Na M]]. unfold remove_concept, deactivate_concept.
  assert (D : forall k, In k (filter (fun y => negb (String.eqb nm y))
                                 (active_concepts c)) ->
                        dict_mem k (dict_del nm (concepts c)) = true).
  { intros k I. apply filter_In in I. destruct I as [I E].
    apply dict_mem_In. rewrite dict_keys_del by exact Nk.
    apply filter_In. split; [|exact E]. apply dict_mem_In. now apply M. }
  destruct (dict_mem nm (concepts c)) eqn:Em;
    cbn [active_concepts concepts set_concepts].
  - destruct (mem nm (active_concepts c)) eqn:Ea;
      unfold engine_ok; cbn [active_concepts concepts set_concepts set_active].
    + rewrite remove_first_filter by exact Na.
      split; [|split; [now apply NoDup_filter | exact D]].
      rewrite dict_keys_del by exact Nk. now apply NoDup_filter.
    + split; [|split; [exact Na|]].
      * rewrite dict_keys_del by exact Nk. now apply NoDup_filter.
      * intros k I. apply D. apply filter_In. split; [exact I|].
        apply mem_false in Ea.
        destruct (String.eqb_spec nm k) as [->|]; [contradiction|reflexivity].
  - destruct (mem nm (active_concepts c)) eqn:Ea; [|now repeat split].
    apply mem_In, M in Ea. congruence.
Qed.

(** X2: a fresh engine has a catalog without repeated keys, no name active
    twice and every active name in the catalog, and [add_concept],
    [remove_concept], [activate_concept], [deactivate_concept] and
    [deactivate_all] keep it so. *)
Theorem engine_ok_kept (c : SteeringController A) (cv : ConceptVector A)
    (nm : string) (s : option A) (st : SteeringStrategy) (a b : A) (n : bool) :
  engine_ok (fresh_engine st a b n)
  /\ (engine_ok c ->
      engine_ok (add_concept c cv)
      /\ engine_ok (remove_concept c nm)
      /\ engine_ok (activate_concept c nm s)
      /\ engine_ok (deactivate_concept c nm)
      /\ engine_ok (deactivate_all c)).
Proof.
  split.
  - unfold engine_ok, fresh_engine. simpl.
    repeat split; try constructor. intros k [].
  - intros K. split; [now apply add_concept_ok|].
    split; [now apply remove_concept_ok|].
    split; [now apply activate_concept_ok|].
    split; [now apply deactivate_concept_ok|].
    destruct K as [Nk _]. unfold engine_ok, deactivate_all. simpl.
    repeat split; [exact Nk | constructor | intros k []].
Qed.

(** X3: on an engine in that state [remove_concept] leaves the name neither
    in the catalog nor active, and [deactivate_concept] leaves it not
    active; both keep every other concept, every other active name and the
    order of the active names, and [deactivate_concept] does not touch the
    catalog. *)
Theorem remove_concept_spec (c : SteeringController A) (nm : string) :
  engine_ok c ->
  dict_get nm (concepts (remove_concept c nm)) = None
  /\ (forall k, k <> nm ->
      dict_get k (concepts (remove_concept c nm)) = dict_get k (concepts c))
  /\ active_concepts (remove_concept c nm)
     = filter (fun y => negb (String.eqb nm y)) (active_concepts c)
  /\ active_concepts (deactivate_concept c nm)
     = filter (fun y => negb (String.eqb nm y)) (active_concepts c)
  /\ concepts (deactivate_concept c nm) = concepts c.
Proof.
  intros [Nk [Na M]].
  assert (F : forall c' : SteeringController A,
                active_concepts c' = active_concepts c ->
                active_concepts (deactivate_concept c' nm)
                = filter (fun y => negb (String.eqb nm y)) (active_concepts c)).
  { intros c' E. unfold deactivate_concept. rewrite E.
    destruct (mem nm (active_concepts c)) eqn:Em;
      cbn [active_concepts set_active].
    - now apply remove_first_filter.
    - rewrite E. symmetry. apply filter_id_on. intros x I.
      apply mem_false in Em.
      destruct (String.eqb_spec nm x) as [->|]; [contradiction|reflexivity]. }
  assert (G : forall c' : SteeringController A,
                concepts (deactivate_concept c' nm) = concepts c').
  { intros c'. unfold deactivate_concept.
    now destruct (mem nm (active_concepts c')). }
  unfold remove_concept. rewrite !G.
  destruct (dict_mem nm (concepts c)) eqn:Em; cbn [concepts set_concepts].
  - split; [now apply dict_get_del_same|].
    split; [intros k N; now apply dict_get_del_other|].
    split; [now apply F|]. split; [now apply F | reflexivity].
  - split; [unfold dict_mem in Em; now destruct (dict_get nm (concepts c))|].
    split; [reflexivity|].
    split; [now apply F|]. split; [now apply F | reflexivity].
Qed.
End EngineOps.

Lemma demo_engine_ok :
  engine_ok (engine_with ADDITIVE 10 2 true [3; 4] 1)%float.
Proof.
  unfold engine_ok. split; [|split].
  - vm_compute. constructor; [intros [] | constructor].
  - vm_compute. constructor; [intros [] | constructor].
  - intros nm I. vm_compute in I. destruct I as [<-|[]]. reflexivity.
Defined.

Lemma activate_concept_spec_witness :
  activate_concept (engine_with ADDITIVE 10 2 true [3; 4] 1)%float "b"
    (Some 0.5%float)
  = (engine_with ADDITIVE 10 2 true [3; 4] 1)%float
  /\ active_concepts
       (activate_concept (engine_with ADDITIVE 10 2 true [3; 4] 1)%float "a"
          (Some 0.5%float))
     = ["a"%string].
Proof.
  destruct (activate_concept_spec
              (engine_with ADDITIVE 10 2 true [3; 4] 1)%float "b"
              (Some 0.5%float)) as [U _].
  destruct (activate_concept_spec
              (engine_with ADDITIVE 10 2 true [3; 4] 1)%float "a"
              (Some 0.5%float)) as [_ Kn].
  split; [apply U; reflexivity|].
  destruct (Kn (mk_ConceptVector "a"
                  (normalized (vec [3; 4]%float)) 1%float []) eq_refl)
    as [Ea _].
  exact Ea.
Defined.

Lemma engine_ok_kept_witness :
  engine_ok (remove_concept (engine_with ADDITIVE 10 2 true [3; 4] 1)%float "a")
  /\ engine_ok (activate_concept
                  (engine_with ADDITIVE 10 2 true [3; 4] 1)%float "a"
                  (Some 0.5%float)).
Proof.
  pose proof demo_engine_ok as K.
  pose proof (proj2 (engine_ok_kept
                       (engine_with ADDITIVE 10 2 true [3; 4] 1)%float
                       (concept_of "b" [1; 0]%float 1%float) "a"
                       (Some 0.5%float) ADDITIVE 10%float 2%float true) K)
    as [_ [R [Ac _]]].
  split; [exact R | exact Ac].
Defined.

Lemma remove_concept_spec_witness :
  dict_get "a" (concepts (remove_concept
                            (engine_with ADDITIVE 10 2 true [3; 4] 1)%float "a"))
  = None
  /\ active_concepts (remove_concept
                        (engine_with ADDITIVE 10 2 true [3; 4] 1)%float "a")
     = [].
Proof.
  pose proof demo_engine_ok as K.
  destruct (remove_concept_spec
              (engine_with ADDITIVE 10 2 true [3; 4] 1)%float "a" K)
    as [G [_ [Ac _]]].
  split; [exact G | exact Ac].
Defined.

(** ** More on [steer] *)

Section SteerMore.
Context {A : Type} `{Scalar A}.

Lemma steer_loop_skips (c : SteeringController A) (x : ndarray A)
    (layer : string) (names : list string) (steered : ndarray A) :
  steer_loop c x layer steered names
  = steer_loop c x layer steered
      (filter (fun nm => dict_mem nm (concepts c)) names).
Proof.
  revert steered. induction names as [|nm names IH]; intros steered;
    [reflexivity|].
  cbn [filter]. unfold dict_mem at 1.
  destruct (dict_get nm (concepts c)) as [cv|] eqn:E.
  - cbn [steer_loop].
    destruct (steer_concept c x layer steered nm); cbn [bind]; auto.
  - cbn [steer_loop]. unfold steer_concept. rewrite E. cbn [bind]. apply IH.
Qed.

(** X4: the loop of [steer] passes over the active names that are not in the
    catalog: it does what it would do with only the catalogued names
    active.  When none of the active names is catalogued and the input has
    at least one axis, [steer] returns the input ([normalize] false) or the
    input rescaled to its own norms ([normalize] true). *)
Theorem steer_ignores_stale_names (c : SteeringController A) (x : ndarray A)
    (layer : string) (t : Z) :
  steer_loop c x layer x (active_concepts c)
  = steer_loop c x layer x
      (filter (fun nm => dict_mem nm (concepts c)) (active_concepts c))
  /\ ((forall nm, In nm (active_concepts c) ->
                  dict_get nm (concepts c) = None) ->
      active_concepts c <> [] -> shape x <> [] ->
      steer c x layer t
      = if normalize c then (n <- norm_last x ;; renormalize n x) else Ok x).
Proof.
  split; [apply steer_loop_skips|].
  intros S Na Sx. unfold steer.
  destruct (active_concepts c) as [|nm rest] eqn:Ea; [contradiction|].
  assert (L : steer_loop c x layer x (nm :: rest) = Ok x).
  { rewrite steer_loop_skips. rewrite filter_none_on; [reflexivity|].
    intros k I. unfold dict_mem. now rewrite (S k I). }
  rewrite L. unfold norm_last, reduce_last.
  destruct (shape x); [contradiction|]. cbn [bind]. reflexivity.
Qed.

(** X5: with a concept active, [steer] raises AxisError on a 0-d input, before
    it looks at any concept. *)
Theorem steer_raises_on_0d (c : SteeringController A) (x : ndarray A)
    (layer : string) (t : Z) :
  active_concepts c <> [] -> shape x = [] ->
  steer c x layer t = Raise AxisError.
Proof.
  intros Na Sx. unfold steer.
  destruct (active_concepts c); [contradiction|].
  unfold norm_last, reduce_last. now rewrite Sx.
Qed.

(** X6: when the input is well formed with trailing dimension [d] and every
    active concept in the catalog has a 1-D vector of length [d], [steer]
    raises nothing, whatever the strategy, the layer and [normalize], and
    returns a well-formed tensor of the shape of the input. *)
Theorem steer_keeps_shape (c : SteeringController A) (x : ndarray A)
    (layer : string) (t : Z) (outer : list nat) (d : nat) :
  shape x = outer ++ [d] -> wf_ndarray x = true -> catalog_fits c d = true ->
  exists y, steer c x layer t = Ok y
            /\ shape y = shape x /\ wf_ndarray y = true.
Proof.
  intros Sx W F.
  destruct (active_concepts c) as [|nm rest] eqn:Ea.
  - exists x. unfold steer. rewrite Ea. auto.
  - assert (Na : active_concepts c <> []) by (rewrite Ea; discriminate).
    destruct (steer_rows_spec c x layer t outer d Na Sx W F)
      as [_ [Rs [S Rn]]].
    eexists. split; [exact S|]. split; [now rewrite Sx|].
    apply wf_of_rows. now destruct (normalize c).
Qed.

Lemma steer_loop_hspace_mid (a b : A) (n : bool) (d : dict (ConceptVector A))
    (act names : list string) (x steered : ndarray A) :
  (forall nm cv, In nm names -> dict_get nm d = Some cv ->
                 fleb fzero (strength cv) = true) ->
  steer_loop (mk_SteeringController HSPACE a b n d act) x "mid" steered names
  = steer_loop (mk_SteeringController ADDITIVE a b n d act) x "mid" steered
      names.
Proof.
  revert steered. induction names as [|nm names IH]; intros steered P;
    [reflexivity|].
  cbn [steer_loop].
  assert (E : steer_concept (mk_SteeringController HSPACE a b n d act) x "mid"
                steered nm
              = steer_concept (mk_SteeringController ADDITIVE a b n d act) x
                  "mid" steered nm).
  { unfold steer_concept. cbn [concepts].
    destruct (dict_get nm d) as [cv|] eqn:G; [|reflexivity].
    destruct (reconcile (vector cv) (shape x)) as [[v|]|e]; cbn [bind];
      try reflexivity.
    unfold apply_strategy. cbn [strategy alpha beta String.eqb Ascii.eqb
                                Bool.eqb].
    unfold gain. rewrite (P nm cv (or_introl eq_refl) G). reflexivity. }
  rewrite E. clear E.
  destruct (steer_concept _ x "mid" steered nm); cbn [bind]; [|reflexivity].
  apply IH. intros k cv I. apply P. now right.
Qed.

(** X7: on layer "mid" the strategy hspace does what the strategy additive
    does, as long as no active concept has a negative strength: the two
    differ only in the gain of a negative strength, [alpha * s] against
    [- beta * |s|]. *)
Theorem hspace_mid_is_additive (a b : A) (n : bool)
    (d : dict (ConceptVector A)) (act : list string) (x : ndarray A) (t : Z) :
  (forall nm cv, In nm act -> dict_get nm d = Some cv ->
                 fleb fzero (strength cv) = true) ->
  steer (mk_SteeringController HSPACE a b n d act) x "mid" t
  = steer (mk_SteeringController ADDITIVE a b n d act) x "mid" t.
Proof.
  intros P. unfold steer. cbn [active_concepts normalize].
  destruct act as [|nm rest]; [reflexivity|].
  destruct (norm_last x); cbn [bind]; [|reflexivity].
  now rewrite (steer_loop_hspace_mid a b n d (nm :: rest) (nm :: rest) x x P).
Qed.

Lemma binop_1d (f : A -> A -> A) (d : nat) (u v : list A) :
  length u = d -> length v = d ->
  nd_binop f (mk_ndarray [d] u) (mk_ndarray [d] v)
  = Ok (mk_ndarray [d] (map2 f u v)).
Proof.
  intros Lu Lv. unfold nd_binop, stretch. cbn [shape data].
  rewrite broadcast_same, pad_shape_same_length by reflexivity.
  rewrite !expand_same by (simpl; lia). reflexivity.
Qed.

Lemma combine_data (c : SteeringController A) (d : nat) (names : list string)
    (acc : option (list A)) :
  forallb (fun nm => match dict_get nm (concepts c) with
                     | None => true
                     | Some cv => fits d cv
                     end) names = true ->
  match acc with Some a => length a = d | None => True end ->
  combine c (option_map (mk_ndarray [d]) acc) names
  = Ok (option_map (mk_ndarray [d]) (combined_data c acc names)).
Proof.
  revert acc. induction names as [|nm names IH]; intros acc F La;
    [reflexivity|].
  cbn [forallb] in F. apply andb_true_iff in F. destruct F as [Fn F].
  cbn [combine combined_data].
  destruct (dict_get nm (concepts c)) as [cv|]; [|now apply IH].
  destruct (fits_inv d cv Fn) as [Ev Lv].
  assert (Lw : length (map (fun x => fmul x (strength cv)) (data (vector cv)))
               = d) by now rewrite length_map.
  unfold nd_map. rewrite Ev. cbn [shape data].
  destruct acc as [a|]; cbn [option_map].
  - unfold nd_add. rewrite binop_1d by assumption. cbn [bind].
    apply (IH (Some _)); [exact F|]. rewrite map2_length; congruence.
  - now apply (IH (Some _)).
Qed.

(** X8: [compute_combined_vector] returns [None], and raises nothing, when
    no active name is in the catalog; when the active concepts in the
    catalog have 1-D vectors of one length it returns the sum of their
    vectors weighted by their strengths, with no gain and no
    normalisation. *)
Theorem compute_combined_vector_spec (c : SteeringController A) (d : nat) :
  ((forall nm, In nm (active_concepts c) ->
               dict_get nm (concepts c) = None) ->
   compute_combined_vector c = Ok None)
  /\ (catalog_fits c d = true ->
      compute_combined_vector c
      = Ok (option_map (mk_ndarray [d])
              (combined_data c None (active_concepts c)))).
Proof.
  unfold compute_combined_vector. split.
  - intros S. destruct (active_concepts c) as [|nm rest] eqn:Ea;
      [reflexivity|].
    rewrite <- Ea in *. clear Ea.
    induction (active_concepts c) as [|k l IH]; [reflexivity|].
    cbn [combine]. rewrite (S k (or_introl eq_refl)).
    apply IH. intros j I. apply S. now right.
  - intros F. destruct (active_concepts c) as [|nm rest] eqn:Ea;
      [reflexivity|].
    rewrite <- Ea. apply (combine_data c d (active_concepts c) None F I).
Qed.
End SteerMore.

Lemma steer_ignores_stale_names_witness :
  steer (mk_SteeringController ADDITIVE 10 2 false [] ["gone"%string])%float
    (vec [1; 2]%float) "mid" 0
  = Ok (vec [1; 2]%float).
Proof.
  apply (proj2 (steer_ignores_stale_names
                  (mk_SteeringController ADDITIVE 10 2 false []
                     ["gone"%string])%float
                  (vec [1; 2]%float) "mid" 0)).
  - intros nm _. reflexivity.
  - discriminate.
  - discriminate.
Defined.

Lemma steer_raises_on_0d_witness :
  steer (engine_with ADDITIVE 10 2 true [1; 0] 1)%float
    (mk_ndarray [] [5%float]) "mid" 0
  = Raise AxisError.
Proof.
  apply (steer_raises_on_0d (engine_with ADDITIVE 10 2 true [1; 0] 1)%float).
  - discriminate.
  - reflexivity.
Defined.

Lemma steer_keeps_shape_witness :
  exists y,
    steer (engine_with PROJECTION 10 2 true [1; 0] 1)%float
      (mk_ndarray [2; 2] [1; 2; 3; 4]%float) "mid" 0 = Ok y
    /\ shape y = [2; 2] /\ wf_ndarray y = true.
Proof.
  apply (steer_keeps_shape (engine_with PROJECTION 10 2 true [1; 0] 1)%float
           (mk_ndarray [2; 2] [1; 2; 3; 4]%float) "mid" 0 [2] 2);
    reflexivity.
Defined.

Lemma hspace_mid_is_additive_witness :
  steer (mk_SteeringController HSPACE 10 2 true
           [("a"%string, concept_of "a" [1; 0] 0.5)] ["a"%string])%float
    (vec [3; 4]%float) "mid" 0
  = steer (mk_SteeringController ADDITIVE 10 2 true
             [("a"%string, concept_of "a" [1; 0] 0.5)] ["a"%string])%float
      (vec [3; 4]%float) "mid" 0.
Proof.
  apply (hspace_mid_is_additive 10 2 true
           [("a"%string, concept_of "a" [1; 0] 0.5)] ["a"%string])%float.
  intros nm cv [<-|[]] G. injection G as <-. reflexivity.
Defined.

Lemma compute_combined_vector_spec_witness :
  compute_combined_vector
    (mk_SteeringController ADDITIVE 10 2 false [] ["gone"%string])%float
  = Ok None
  /\ compute_combined_vector (engine_with ADDITIVE 10 2 true [3; 4] 2)%float
     = Ok (Some (vec [1.2; 1.6000000000000001]%float)).
Proof.
  split.
  - apply (proj1 (compute_combined_vector_spec
                    (mk_SteeringController ADDITIVE 10 2 false []
                       ["gone"%string])%float 2)).
    intros nm _. reflexivity.
  - rewrite (proj2 (compute_combined_vector_spec
                      (engine_with ADDITIVE 10 2 true [3; 4] 2)%float 2))
      by reflexivity.
    vm_compute. reflexivity.
Defined.

(** ** The gated appliers inside the gate *)

Section ApplierRows.
Context {A : Type} `{Scalar A}.

Lemma usable_inv (d : nat) (v : ndarray A) :
  usable d v = true -> v = mk_ndarray [d] (data v) /\ length (data v) = d.
Proof.
  unfold usable. destruct v as [sh l]. simpl.
  destruct sh as [|m [|m' sh]]; try discriminate.
  rewrite andb_true_iff, !Nat.eqb_eq. intros [-> E]. auto.
Qed.

Lemma passed_over_inv (d : nat) (v : ndarray A) :
  passed_over d v = true ->
  exists m, shape_last (shape v) = Ok m /\ (m =? d) = false.
Proof.
  unfold passed_over, shape_last. destruct (rev (shape v)) as [|m r];
    [discriminate|].
  intros E. exists m. split; [reflexivity|]. now apply negb_true_iff.
Qed.

Lemma shape_last_1d (d : nat) : shape_last [d] = Ok d.
Proof. reflexivity. Qed.

(** The loop of [apply_steering] against [ca_rows]. *)
Lemma ca_loop_rows (cfg : CASteerConfig A) (x : ndarray A)
    (outer : list nat) (d : nat) (items : dict (ndarray A * A)) :
  shape x = outer ++ [d] ->
  forallb (fun it => usable d (fst (snd it)) || passed_over d (fst (snd it)))
    items = true ->
  forall rs, row_list outer d rs ->
  ca_loop cfg x (of_rows outer d rs) items
  = Ok (of_rows outer d (ca_rows cfg d rs items))
  /\ row_list outer d (ca_rows cfg d rs items).
Proof.
  intros Sx. induction items as [|[k [v s]] items IH]; intros F rs R.
  - simpl. auto.
  - cbn [forallb fst snd] in F. apply andb_true_iff in F.
    destruct F as [Fv F]. cbn [ca_loop ca_rows]. rewrite Sx, shape_last_snoc.
    destruct (usable d v) eqn:U.
    + destruct (usable_inv d v U) as [Ev Lv]. rewrite Ev. cbn [shape data].
      rewrite shape_last_1d. cbn [bind]. rewrite Nat.eqb_refl. cbn [negb].
      unfold nd_add, scalar_mul, nd_map. cbn [shape data].
      rewrite binop_vec' by (rewrite ?length_map; auto). cbn [bind].
      apply IH; [exact F|]. apply row_list_map; [|exact R]. intros r Lr.
      unfold additive_row. now apply length_axpy.
    + cbn [orb] in Fv. destruct (passed_over_inv d v Fv) as [m [Em Nm]].
      rewrite Em. cbn [bind]. rewrite Nm. cbn [negb]. now apply IH.
Qed.

(** X11: inside its gate (switched on, layer in the allow-list, timestep in
    the window) [apply_steering] raises nothing on a well-formed input with
    trailing dimension [d] when every stored direction is either a 1-D vector
    of length [d] or has another trailing dimension.  The directions of
    another trailing dimension are passed over, each of the others adds
    [gain * v] to every position in insertion order, and the result, of the
    shape of the input, is rescaled to the input's norms when the
    configuration asks for it. *)
Theorem apply_steering_rows (ap : CASteerApplier A) (x : ndarray A)
    (layer : string) (t : Z) (outer : list nat) (d : nat) :
  active ap = true -> In layer (apply_to_layers (config ap)) ->
  (fst (ca_timestep_range (config ap)) <= t
   <= snd (ca_timestep_range (config ap)))%Z ->
  shape x = outer ++ [d] -> wf_ndarray x = true ->
  forallb (fun it => usable d (fst (snd it)) || passed_over d (fst (snd it)))
    (steering_vectors ap) = true ->
  apply_steering ap x layer t
  = Ok (of_rows outer d
          (if ca_normalize (config ap)
           then map2 (fun r n => renorm_row n r)
                  (ca_rows (config ap) d (rows x) (steering_vectors ap))
                  (map l2 (rows x))
           else ca_rows (config ap) d (rows x) (steering_vectors ap))).
Proof.
  intros Ac Il Wt Sx W F.
  destruct (of_rows_rows outer d x Sx W) as [Ex Rx].
  destruct (ca_loop_rows (config ap) x outer d (steering_vectors ap) Sx F
              (rows x) Rx) as [L Rs].
  rewrite <- Ex in L.
  destruct (renormalize_rows outer d _ (map l2 (rows x)) Rs) as [N _].
  { rewrite length_map. now destruct Rx. }
  unfold apply_steering. rewrite Ac.
  rewrite (proj2 (mem_In layer _) Il). cbn [negb orb].
  destruct (ca_timestep_range (config ap)) as [lo hi]. cbn [fst snd] in Wt.
  rewrite (proj2 (in_window_spec lo hi t) Wt). cbn [negb].
  unfold norm_last at 1. rewrite Ex at 1.
  rewrite reduce_last_rows by exact Rx. cbn [bind].
  rewrite L. cbn [bind]. destruct (ca_normalize (config ap)); [exact N|].
  reflexivity.
Qed.

(** The loop of [apply_edit] against [hs_rows]. *)
Lemma hs_loop_rows (ed : HSpaceEditor A) (h : ndarray A)
    (outer : list nat) (d : nat) (names : list string) :
  shape h = outer ++ [d] ->
  forallb (fun nm => match dict_get nm (edit_directions ed) with
                     | Some (v, _) => usable d v || passed_over d v
                     | None => true
                     end) names = true ->
  forall rs, row_list outer d rs ->
  hs_loop ed h (of_rows outer d rs) names
  = Ok (of_rows outer d (hs_rows ed d rs names)).
Proof.
  intros Sh. induction names as [|nm names IH]; intros F rs R;
    [reflexivity|].
  cbn [forallb] in F. apply andb_true_iff in F. destruct F as [Fv F].
  cbn [hs_loop hs_rows].
  destruct (dict_get nm (edit_directions ed)) as [[v s]|]; [|now apply IH].
  rewrite Sh, shape_last_snoc. destruct (usable d v) eqn:U.
  - destruct (usable_inv d v U) as [Ev Lv]. rewrite Ev. cbn [shape data].
    rewrite shape_last_1d. cbn [bind]. rewrite Nat.eqb_refl. cbn [negb].
    unfold nd_add, scalar_mul, nd_map. cbn [shape data].
    rewrite binop_vec' by (rewrite ?length_map; auto). cbn [bind].
    apply IH; [exact F|]. apply row_list_map; [|exact R]. intros r Lr.
    now apply length_axpy.
  - cbn [orb] in Fv. destruct (passed_over_inv d v Fv) as [m [Em Nm]].
    rewrite Em. cbn [bind]. rewrite Nm. cbn [negb]. now apply IH.
Qed.

(** X12: inside its window (bounds included) and with an edit active,
    [apply_edit] raises nothing on a well-formed input with trailing
    dimension [d] when every active stored direction is either a 1-D vector
    of length [d] or has another trailing dimension.  Active names that are
    not stored and directions of another trailing dimension are passed over;
    each of the others adds [edit_strength * s * v] to every position; the
    result is not rescaled. *)
Theorem apply_edit_rows (ed : HSpaceEditor A) (h : ndarray A) (t : Z)
    (outer : list nat) (d : nat) :
  active_edits ed <> [] ->
  (fst (hs_timestep_range (hs_config ed)) <= t
   <= snd (hs_timestep_range (hs_config ed)))%Z ->
  shape h = outer ++ [d] -> wf_ndarray h = true ->
  forallb (fun nm => match dict_get nm (edit_directions ed) with
                     | Some (v, _) => usable d v || passed_over d v
                     | None => true
                     end) (active_edits ed) = true ->
  apply_edit ed h t
  = Ok (of_rows outer d (hs_rows ed d (rows h) (active_edits ed))).
Proof.
  intros Na Wt Sh W F.
  destruct (of_rows_rows outer d h Sh W) as [Eh Rh].
  pose proof (hs_loop_rows ed h outer d (active_edits ed) Sh F (rows h) Rh)
    as L.
  rewrite <- Eh in L.
  unfold apply_edit. destruct (active_edits ed) as [|nm rest] eqn:Ea;
    [contradiction|].
  destruct (hs_timestep_range (hs_config ed)) as [lo hi]. cbn [fst snd] in Wt.
  rewrite (proj2 (in_window_spec lo hi t) Wt). cbn [negb]. exact L.
Qed.

(** X13: [activate_edit] ignores a name that is not stored.  For a stored
    name it appends the name to the active edits unless it is there already,
    keeps the direction and replaces the strength when one is given; the
    other directions are untouched.  [deactivate_edit] leaves the stored
    directions as they are and, when no name is active twice, removes the
    name from the active edits keeping the order of the others. *)
Theorem activate_edit_spec (ed : HSpaceEditor A) (nm : string)
    (s : option A) :
  (dict_get nm (edit_directions ed) = None -> activate_edit ed nm s = ed)
  /\ (forall v s0, dict_get nm (edit_directions ed) = Some (v, s0) ->
      active_edits (activate_edit ed nm s)
      = (if mem nm (active_edits ed) then active_edits ed
         else active_edits ed ++ [nm])
      /\ dict_get nm (edit_directions (activate_edit ed nm s))
         = Some (v, match s with Some x => x | None => s0 end)
      /\ (forall k, k <> nm ->
          dict_get k (edit_directions (activate_edit ed nm s))
          = dict_get k (edit_directions ed)))
  /\ edit_directions (deactivate_edit ed nm) = edit_directions ed
  /\ (NoDup (active_edits ed) ->
      active_edits (deactivate_edit ed nm)
      = filter (fun y => negb (String.eqb nm y)) (active_edits ed)).
Proof.
  split; [|split; [|split]].
  - intros E. unfold activate_edit. now rewrite E.
  - intros v s0 E. unfold activate_edit. rewrite E.
    cbn [active_edits edit_directions]. split; [reflexivity|].
    destruct s as [x|].
    + split; [apply dict_get_set_same|].
      intros k N. now apply dict_get_set_other.
    + split; [exact E | reflexivity].
  - unfold deactivate_edit. now destruct (mem nm (active_edits ed)).
  - intros N. unfold deactivate_edit.
    destruct (mem nm (active_edits ed)) eqn:Em; cbn [active_edits].
    + now apply remove_first_filter.
    + symmetry. apply filter_id_on. intros y I. apply mem_false in Em.
      destruct (String.eqb_spec nm y) as [->|]; [contradiction|reflexivity].
Qed.
End ApplierRows.

Lemma apply_steering_rows_witness :
  apply_steering
    (activate (add_steering_vector
                 (add_steering_vector (CASteerApplier_init None) "a"
                    (vec [3; 4]%float) 1%float)
                 "odd" (vec [1; 2; 2]%float) 1%float))
    (vec [0; 5]%float) "mid" 1000
  = Ok (vec [2.0952908858453196; 4.5397969193315264]%float).
Proof.
  rewrite (apply_steering_rows
             (activate (add_steering_vector
                          (add_steering_vector (CASteerApplier_init None) "a"
                             (vec [3; 4]%float) 1%float)
                          "odd" (vec [1; 2; 2]%float) 1%float))
             (vec [0; 5]%float) "mid" 1000 [] 2).
  - vm_compute. reflexivity.
  - reflexivity.
  - simpl. auto.
  - cbn. lia.
  - reflexivity.
  - reflexivity.
  - reflexivity.
Defined.

Lemma apply_edit_rows_witness :
  apply_edit demo_editor (vec [1; 2]%float) 800
  = Ok (vec [1.6000000000000001; 2.7999999999999998]%float).
Proof.
  rewrite (apply_edit_rows demo_editor (vec [1; 2]%float) 800 [] 2).
  - vm_compute. reflexivity.
  - discriminate.
  - cbn. lia.
  - reflexivity.
  - reflexivity.
  - reflexivity.
Defined.

Lemma activate_edit_spec_witness :
  activate_edit demo_editor "b" (Some 2%float) = demo_editor
  /\ active_edits (deactivate_edit demo_editor "a") = [].
Proof.
  destruct (activate_edit_spec demo_editor "b" (Some 2%float)) as [U _].
  destruct (activate_edit_spec demo_editor "a" None) as [_ [_ [_ D]]].
  split; [apply U; reflexivity|].
  rewrite D; [reflexivity|].
  vm_compute. constructor; [intros [] | constructor].
Defined.

(** ** Stored directions, the library and its files *)

Section StoredDirections.
Context {A : Type} `{Scalar A}.

(** X14: [add_steering_vector], [add_edit_direction] and the engine's
    [add_concept] treat the vector they are given in one and the same way:
    each stores it with every element divided by its computed norm when that
    norm is greater than 0, and as given otherwise, in the shape it came in.
    The two appliers store the strength as given beside it, leave every
    other name as it was, and neither switches the applier on nor activates
    the edit. *)
Theorem applier_directions_normalized (ap : CASteerApplier A)
    (ed : HSpaceEditor A) (c : SteeringController A) (nm : string)
    (v : ndarray A) (s : A) (md : list (string * string)) :
  exists stored,
    dict_get nm (steering_vectors (add_steering_vector ap nm v s))
    = Some (stored, s)
    /\ dict_get nm (edit_directions (add_edit_direction ed nm v s))
       = Some (stored, s)
    /\ dict_get nm (concepts (add_concept c (mk_ConceptVector nm v s md)))
       = Some (mk_ConceptVector nm stored s md)
    /\ shape stored = shape v
    /\ (fltb fzero (norm v) = true ->
        data stored = map (fun a => fdiv a (norm v)) (data v))
    /\ (fltb fzero (norm v) = false -> stored = v)
    /\ (forall k, k <> nm ->
        dict_get k (steering_vectors (add_steering_vector ap nm v s))
        = dict_get k (steering_vectors ap)
        /\ dict_get k (edit_directions (add_edit_direction ed nm v s))
           = dict_get k (edit_directions ed))
    /\ active (add_steering_vector ap nm v s) = active ap
    /\ active_edits (add_edit_direction ed nm v s) = active_edits ed.
Proof.
  exists (normalized v).
  unfold add_steering_vector, add_edit_direction, add_concept.
  cbn [steering_vectors edit_directions active active_edits concepts
       set_concepts set_vector name vector strength metadata].
  rewrite !dict_get_set_same.
  repeat (split; [reflexivity|]).
  split; [unfold normalized; now destruct (fltb fzero (norm v))|].
  split; [intros P; unfold normalized; now rewrite P|].
  split; [intros Z; unfold normalized; now rewrite Z|].
  split; [|split; reflexivity].
  intros k N. split; now apply dict_get_set_other.
Qed.
End StoredDirections.

Lemma applier_directions_normalized_witness :
  dict_get "a" (steering_vectors
                  (add_steering_vector (CASteerApplier_init None) "a"
                     (vec [3; 4]%float) 1%float))
  = Some (vec [0.59999999999999998; 0.80000000000000004]%float, 1%float)
  /\ dict_get "z" (edit_directions
                     (add_edit_direction (HSpaceEditor_init None) "z"
                        (vec [1e200; 0]%float) 1%float))
     = Some (vec [0; 0]%float, 1%float).
Proof.
  destruct (applier_directions_normalized (CASteerApplier_init None)
              (HSpaceEditor_init None) (fresh_engine ADDITIVE 10 2 true)%float
              "a" (vec [3; 4]%float) 1%float [])
    as [st [G [_ [_ [Sh [D _]]]]]].
  destruct (applier_directions_normalized (CASteerApplier_init None)
              (HSpaceEditor_init None) (fresh_engine ADDITIVE 10 2 true)%float
              "z" (vec [1e200; 0]%float) 1%float [])
    as [st' [_ [G' [_ [Sh' [D' _]]]]]].
  split.
  - rewrite G. destruct st as [sh dt]. cbn [shape data] in Sh, D.
    rewrite Sh, D by reflexivity. vm_compute. reflexivity.
  - rewrite G'. destruct st' as [sh dt]. cbn [shape data] in Sh', D'.
    rewrite Sh', D' by reflexivity. vm_compute. reflexivity.
Defined.

Section LibraryMore.
Context {A : Type} `{Scalar A}.

(** X15: the library's [add_concept] inserts or replaces by name: the
    concept is found under its name, every other name is found as before,
    and [list_concepts] keeps its order, with a new name added at the end and
    a replaced name left in its place. *)
Theorem lib_add_concept_spec (l : ConceptLibrary A) (cv : ConceptVector A) :
  get_concept (lib_add_concept l cv) (name cv) = Some cv
  /\ (forall k, k <> name cv ->
      get_concept (lib_add_concept l cv) k = get_concept l k)
  /\ list_concepts (lib_add_concept l cv)
     = (if mem (name cv) (list_concepts l) then list_concepts l
        else list_concepts l ++ [name cv])
  /\ path (lib_add_concept l cv) = path l.
Proof.
  unfold get_concept, list_concepts, lib_add_concept. cbn [lib_concepts path].
  split; [apply dict_get_set_same|].
  split; [intros k N; now apply dict_get_set_other|].
  split; [|reflexivity]. rewrite dict_keys_set.
  destruct (dict_mem (name cv) (lib_concepts l)) eqn:E.
  - apply dict_mem_In, mem_In in E. now rewrite E.
  - destruct (mem (name cv) (dict_keys (lib_concepts l))) eqn:M;
      [|reflexivity].
    apply mem_In, dict_mem_In in M. congruence.
Qed.

Lemma path_truthy_nonempty (p : string) :
  p <> EmptyString -> path_truthy (Some p) = Some p.
Proof. destruct p; [contradiction | reflexivity]. Qed.

(** X17: the engine's [load_concepts] on a non-empty path does what the
    library's [load] does for a library on that path that holds the engine's
    catalog, and then takes the library's registry as the catalog: the two
    read the same files, raise on the same files, and neither normalises a
    vector on the way in.  The strategy, the gains, the [normalize] switch
    and the active list are kept, so names may stay active that the new
    catalog does not hold.  On a path that does not exist the engine is
    unchanged; on a file that holds a registry the catalog is exactly that
    registry. *)
Theorem load_concepts_reads_library (fs : filesystem A)
    (c : SteeringController A) (p : string) :
  p <> EmptyString ->
  load_concepts fs c p
  = (l <- load fs (mk_ConceptLibrary (Some p) (concepts c)) ;;
     Ok (set_concepts c (lib_concepts l)))
  /\ (forall c', load_concepts fs c p = Ok c' ->
      strategy c' = strategy c /\ alpha c' = alpha c /\ beta c' = beta c
      /\ normalize c' = normalize c
      /\ active_concepts c' = active_concepts c)
  /\ (dict_mem p fs = false -> load_concepts fs c p = Ok c)
  /\ (forall d, dict_get p fs = Some (PickledConcepts d) ->
      load_concepts fs c p = Ok (set_concepts c d))
  /\ (dict_get p fs = Some NotAPickle ->
      load_concepts fs c p = Raise UnpicklingError).
Proof.
  intros Np. unfold load_concepts, load, path_exists. cbn [path].
  rewrite (path_truthy_nonempty p Np).
  split; [|split; [|split; [|split]]].
  - destruct (dict_mem p fs); [|now destruct c].
    destruct (dict_get p fs) as [[d|]|]; reflexivity.
  - intros c'. destruct (dict_mem p fs); [|intros [= <-]; auto].
    destruct (dict_get p fs) as [[d|]|]; try discriminate.
    intros [= <-]. auto.
  - intros M. now rewrite M.
  - intros d G. unfold dict_mem. now rewrite G.
  - intros G. unfold dict_mem. now rewrite G.
Qed.
End LibraryMore.

Lemma lib_add_concept_spec_witness :
  get_concept demo_library "b" = None
  /\ list_concepts
       (lib_add_concept demo_library (concept_of "a" [0; 1]%float 1%float))
     = ["a"%string].
Proof.
  destruct (lib_add_concept_spec
              (mk_ConceptLibrary (Some "concepts.pkl"%string) [])
              (concept_of "a" [2; 0]%float 1%float)) as [_ [O _]].
  destruct (lib_add_concept_spec demo_library
              (concept_of "a" [0; 1]%float 1%float)) as [_ [_ [L _]]].
  split; [apply (O "b"%string); discriminate | exact L].
Defined.

Lemma load_concepts_reads_library_witness :
  load_concepts
    [("concepts.pkl"%string, PickledConcepts (lib_concepts demo_library))]
    (engine_with ADDITIVE 10 2 true [3; 4] 1)%float "concepts.pkl"
  = Ok (set_concepts (engine_with ADDITIVE 10 2 true [3; 4] 1)%float
          (lib_concepts demo_library))
  /\ load_concepts [] (engine_with ADDITIVE 10 2 true [3; 4] 1)%float
       "concepts.pkl"
     = Ok (engine_with ADDITIVE 10 2 true [3; 4] 1)%float.
Proof.
  destruct (load_concepts_reads_library
              [("concepts.pkl"%string,
                PickledConcepts (lib_concepts demo_library))]
              (engine_with ADDITIVE 10 2 true [3; 4] 1)%float "concepts.pkl")
    as [_ [_ [_ [R _]]]]; [discriminate|].
  destruct (load_concepts_reads_library []
              (engine_with ADDITIVE 10 2 true [3; 4] 1)%float "concepts.pkl")
    as [_ [_ [M _]]]; [discriminate|].
  split; [apply R; reflexivity | apply M; reflexivity].
Defined.

(** After such a load the catalog holds the file's vector [(2, 0)], of norm
    2, in place of the engine's unit vector. *)
Example load_concepts_keeps_norm :
  option_map (fun cv => norm (vector cv))
    (match load_concepts
             [("concepts.pkl"%string,
               PickledConcepts (lib_concepts demo_library))]
             (engine_with ADDITIVE 10 2 true [3; 4] 1)%float "concepts.pkl"
     with
     | Ok c => dict_get "a" (concepts c)
     | Raise _ => None
     end)
  = Some 2%float.
Proof. vm_compute. reflexivity. Qed.

(** ** Prompts and the choice of a strategy *)

(** X18: for every concept name [get_concept_prompts] returns two lists of
    the same length, not empty, with no prompt in both; for a name it does
    not know the two lists are [high name] and [low name]. *)
Theorem get_concept_prompts_spec (concept : string) :
  fst (get_concept_prompts concept) <> []
  /\ length (fst (get_concept_prompts concept))
     = length (snd (get_concept_prompts concept))
  /\ (forall s, In s (fst (get_concept_prompts concept)) ->
                ~ In s (snd (get_concept_prompts concept)))
  /\ (~ In concept ["creativity"; "professional"; "arabic_style"]%string ->
      get_concept_prompts concept
      = ([String.append "high " concept], [String.append "low " concept])).
Proof.
  unfold get_concept_prompts.
  destruct (String.eqb_spec concept "creativity") as [->|N1].
  { repeat split; try discriminate.
    - intros s [<-|[<-|[<-|[]]]] [E|[E|[E|[]]]]; discriminate E.
    - intros N. exfalso. apply N. simpl. auto. }
  destruct (String.eqb_spec concept "professional") as [->|N2].
  { repeat split; try discriminate.
    - intros s [<-|[<-|[<-|[]]]] [E|[E|[E|[]]]]; discriminate E.
    - intros N. exfalso. apply N. simpl. auto. }
  destruct (String.eqb_spec concept "arabic_style") as [->|N3].
  { repeat split; try discriminate.
    - intros s [<-|[<-|[<-|[]]]] [E|[E|[E|[]]]]; discriminate E.
    - intros N. exfalso. apply N. simpl. auto. }
  repeat split; try discriminate.
  intros s [<-|[]] [E|[]]. discriminate E.
Qed.

Lemma get_concept_prompts_spec_witness :
  get_concept_prompts "vibrant" = (["high vibrant"], ["low vibrant"])%string.
Proof.
  destruct (get_concept_prompts_spec "vibrant") as [_ [_ [_ D]]].
  apply D. simpl. intros [E|[E|[E|[]]]]; discriminate E.
Defined.

(** X19: whatever the analysis, [_select_strategy] returns a name that the
    engine's constructor accepts (so constructing an engine with it does not
    raise); it is hspace exactly when the mood is traditional and the style
    is none of logo, icon and photo, and projection exactly for the style
    photo. *)
Theorem select_strategy_accepted (an : AnalysisResult) (a b : float)
    (n : bool) :
  exists st,
    SteeringController_init (_select_strategy an) a b n
    = Ok (fresh_engine st a b n)
    /\ (st = HSPACE <->
        mood an = "traditional"%string
        /\ ~ In (style an) ["logo"; "icon"; "photo"]%string)
    /\ (st = PROJECTION <-> style an = "photo"%string).
Proof.
  unfold _select_strategy. cbn [mem].
  destruct (String.eqb_spec (style an) "logo") as [E1|N1].
  { exists ADDITIVE. rewrite E1. split; [reflexivity|].
    split; split; try discriminate.
    intros [_ N]. exfalso. apply N. simpl. auto. }
  destruct (String.eqb_spec (style an) "icon") as [E2|N2].
  { exists ADDITIVE. rewrite E2. split; [reflexivity|].
    split; split; try discriminate.
    intros [_ N]. exfalso. apply N. simpl. auto. }
  cbn [orb]. destruct (String.eqb_spec (style an) "photo") as [E3|N3].
  { exists PROJECTION. rewrite E3. split; [reflexivity|].
    split; split; try discriminate; auto.
    intros [_ N]. exfalso. apply N. simpl. auto. }
  cbn [orb]. destruct (String.eqb_spec (mood an) "traditional") as [E4|N4].
  - exists HSPACE. split; [reflexivity|]. split; split; auto;
      try discriminate; try contradiction.
    intros _. split; [exact E4|]. simpl. intros [Q|[Q|[Q|[]]]]; congruence.
  - exists ADDITIVE. split; [reflexivity|]. split; split; try discriminate;
      try contradiction.
    intros [Q _]. contradiction.
Qed.

(** ** The engine of [core.py] *)

Section StoreFacts.
Context {B : Type}.

Lemma length_update (r : nat) (f : B -> B) (h : list B) :
  length (update r f h) = length h.
Proof.
  revert r. induction h as [|x h IH]; intros [|r]; simpl; auto.
Qed.

Lemma nth_error_update_same (r : nat) (f : B -> B) (h : list B) :
  nth_error (update r f h) r = option_map f (nth_error h r).
Proof.
  revert r. induction h as [|x h IH]; intros [|r]; simpl; auto.
Qed.

Lemma nth_error_update_other (r r' : nat) (f : B -> B) (h : list B) :
  r <> r' -> nth_error (update r f h) r' = nth_error h r'.
Proof.
  revert r r'. induction h as [|x h IH]; intros [|r] [|r'] N; simpl; auto;
    try contradiction; try (apply IH; lia).
Qed.

Lemma nth_update_same (r : nat) (f : B -> B) (h : list B) (d : B) :
  r < length h -> nth r (update r f h) d = f (nth r h d).
Proof.
  revert r. induction h as [|x h IH]; intros [|r] L; simpl in *; try lia;
    [reflexivity|].
  apply IH. lia.
Qed.

Lemma nth_update_other (r r' : nat) (f : B -> B) (h : list B) (d : B) :
  r <> r' -> nth r' (update r f h) d = nth r' h d.
Proof.
  revert r r'. induction h as [|x h IH]; intros [|r] [|r'] N; simpl; auto;
    try contradiction; try (apply IH; lia).
Qed.

(** Changing the object that was allocated last. *)
Lemma update_last (f : B -> B) (h : list B) (o : B) :
  update (length h) f (h ++ [o]) = h ++ [f o].
Proof. induction h as [|x h IH]; simpl; [reflexivity|]. now rewrite IH. Qed.
End StoreFacts.

Section ResolveFacts.
Context {A : Type} `{Scalar A}.

Lemma dict_keys_resolve (h : list (ConceptVector A)) (d : dict nat) :
  dict_keys (resolve h d) = dict_keys d.
Proof. unfold dict_keys, resolve. rewrite map_map. reflexivity. Qed.

Lemma dict_get_resolve (h : list (ConceptVector A)) (d : dict nat)
    (k : string) :
  dict_get k (resolve h d)
  = option_map (fun r => nth r h no_concept) (dict_get k d).
Proof.
  induction d as [|[k' r] d IH]; simpl; [reflexivity|].
  now destruct (String.eqb k k').
Qed.

(** With every address in the store, the two ways to read a name agree. *)
Lemma lookup_resolve (h : list (ConceptVector A)) (d : dict nat)
    (k : string) :
  refs_in h d -> lookup h d k = dict_get k (resolve h d).
Proof.
  intros R. rewrite dict_get_resolve. unfold lookup.
  induction R as [|[k' r] d L _ IH]; simpl; [reflexivity|].
  destruct (String.eqb k k'); [|exact IH]. simpl in *.
  now apply nth_error_nth'.
Qed.

Lemma refs_in_app (h l : list (ConceptVector A)) (d : dict nat) :
  refs_in h d -> refs_in (h ++ l) d.
Proof.
  unfold refs_in. intros R. eapply Forall_impl; [|exact R].
  intros kr L. cbv beta in *. rewrite length_app. lia.
Qed.

Lemma refs_in_update (r : nat) (f : ConceptVector A -> ConceptVector A)
    (h : list (ConceptVector A)) (d : dict nat) :
  refs_in h d -> refs_in (update r f h) d.
Proof.
  unfold refs_in. intros R. eapply Forall_impl; [|exact R].
  intros kr L. cbv beta in *. now rewrite length_update.
Qed.

Lemma refs_in_set (h : list (ConceptVector A)) (d : dict nat) (k : string)
    (r : nat) :
  refs_in h d -> r < length h -> refs_in h (dict_set k r d).
Proof.
  unfold refs_in. intros R L. induction R as [|[k' r'] d Lr Rd IH]; simpl.
  - repeat constructor. exact L.
  - destruct (String.eqb k k'); constructor; simpl; auto.
Qed.

Lemma resolve_app (h l : list (ConceptVector A)) (d : dict nat) :
  refs_in h d -> resolve (h ++ l) d = resolve h d.
Proof.
  unfold resolve. intros R. induction R as [|[k r] d L _ IH]; simpl;
    [reflexivity|].
  rewrite IH. simpl in L. now rewrite app_nth1.
Qed.

Lemma resolve_update_absent (r : nat)
    (f : ConceptVector A -> ConceptVector A) (h : list (ConceptVector A))
    (d : dict nat) :
  ~ In r (map snd d) -> resolve (update r f h) d = resolve h d.
Proof.
  unfold resolve. induction d as [|[k r'] d IH]; simpl; [reflexivity|].
  intros N. rewrite IH by tauto.
  rewrite nth_update_other by (intros ->; tauto). reflexivity.
Qed.

(** Assigning to an attribute of the object of one name. *)
Lemma resolve_update (r : nat) (f : ConceptVector A -> ConceptVector A)
    (h : list (ConceptVector A)) (d : dict nat) (nm : string) :
  NoDup (map snd d) -> dict_get nm d = Some r -> r < length h ->
  resolve (update r f h) d
  = dict_set nm (f (nth r h no_concept)) (resolve h d).
Proof.
  intros N G L. induction d as [|[k r'] d IH]; [discriminate|].
  simpl in *. inversion N as [|? ? Nr Nd]; subst.
  destruct (String.eqb_spec nm k) as [->|Ne].
  - injection G as ->. rewrite nth_update_same by exact L.
    now rewrite (resolve_update_absent r f h d Nr).
  - assert (I : In r (map snd d)).
    { clear -G. induction d as [|[k2 r2] d IH]; [discriminate|]. simpl in *.
      destruct (String.eqb nm k2); [injection G as ->; now left|].
      right. now apply IH. }
    rewrite nth_update_other by (intros ->; contradiction).
    now rewrite IH.
Qed.

(** Registering the object that was allocated last. *)
Lemma resolve_set_last (h : list (ConceptVector A)) (d : dict nat)
    (k : string) (o : ConceptVector A) :
  refs_in h d ->
  resolve (h ++ [o]) (dict_set k (length h) d) = dict_set k o (resolve h d).
Proof.
  unfold resolve. intros R. induction R as [|[k' r] d L Rd IH]; simpl.
  - now rewrite nth_middle.
  - simpl in L. destruct (String.eqb k k'); simpl.
    + rewrite nth_middle. f_equal.
      fold (resolve (h ++ [o]) d). fold (resolve h d).
      now apply resolve_app.
    + rewrite IH. now rewrite app_nth1.
Qed.

Lemma NoDup_refs_set_last (h : list (ConceptVector A)) (d : dict nat)
    (k : string) :
  refs_in h d -> NoDup (map snd d) ->
  NoDup (map snd (dict_set k (length h) d)).
Proof.
  intros R N.
  assert (Fr : ~ In (length h) (map snd d)).
  { intros I. apply in_map_iff in I. destruct I as [kr [E I]].
    unfold refs_in in R. rewrite Forall_forall in R.
    specialize (R kr I). lia. }
  induction d as [|[k' r] d IH]; simpl.
  - repeat constructor. intros [].
  - simpl in *. inversion N as [|? ? Nr Nd]; subst.
    inversion R as [|? ? Lr Rd]; subst.
    destruct (String.eqb k k'); simpl.
    + constructor; [tauto | exact Nd].
    + constructor; [|apply IH; auto].
      intros I. apply in_map_iff in I. destruct I as [[k2 r2] [E I]].
      simpl in E. subst r2.
      assert (J : In r (map snd d) \/ r = length h).
      { clear -I. induction d as [|[k3 r3] d IH]; simpl in *.
        - destruct I as [E|[]]. injection E as _ <-. now right.
        - destruct (String.eqb k k3); simpl in I.
          + destruct I as [E|I]; [injection E as _ <-; now right|].
            left. right. apply in_map_iff. now exists (k2, r).
          + destruct I as [E|I]; [injection E as _ <-; left; now left|].
            destruct (IH I) as [J|J]; [left; now right | now right]. }
      destruct J as [J|J]; [contradiction|]. simpl in Lr. lia.
Qed.
End ResolveFacts.

Section CoreFacts.
Context {A : Type} `{Scalar A}.

Lemma refs_in_get (h : list (ConceptVector A)) (d : dict nat) (k : string)
    (r : nat) :
  refs_in h d -> dict_get k d = Some r -> r < length h.
Proof.
  intros R. induction R as [|[k' r'] d L Rd IH]; simpl; [discriminate|].
  destruct (String.eqb k k'); [|exact IH]. intros [= <-]. exact L.
Qed.

(** [SteeringController.add_concept] on the object allocated last. *)
Lemma ctl_add_concept_last (h : list (ConceptVector A))
    (c : ControllerRefs A) (cv : ConceptVector A) :
  ctl_add_concept (h ++ [cv]) c (length h)
  = (h ++ [set_vector cv (normalized (vector cv))],
     set_c_concepts c (dict_set (name cv) (length h) (c_concepts c))).
Proof.
  unfold ctl_add_concept.
  rewrite nth_error_app2, Nat.sub_diag by lia. cbn [nth_error].
  now rewrite update_last.
Qed.

Lemma ctl_add_concept_view (h : list (ConceptVector A))
    (c : ControllerRefs A) (cv : ConceptVector A) :
  refs_in h (c_concepts c) ->
  controller_view (h ++ [set_vector cv (normalized (vector cv))])
    (set_c_concepts c (dict_set (name cv) (length h) (c_concepts c)))
  = add_concept (controller_view h c) cv.
Proof.
  intros R. unfold controller_view, add_concept, set_concepts.
  cbn [c_strategy c_alpha c_beta c_normalize c_concepts c_active
       set_c_concepts strategy alpha beta normalize concepts active_concepts
       name set_vector].
  now rewrite resolve_set_last.
Qed.

(** [activate_concept] on addresses against [activate_concept] on values. *)
Lemma ctl_activate_concept_view (h : list (ConceptVector A))
    (c : ControllerRefs A) (nm : string) (s : option A) :
  refs_in h (c_concepts c) -> NoDup (map snd (c_concepts c)) ->
  controller_view (fst (ctl_activate_concept h c nm s))
    (snd (ctl_activate_concept h c nm s))
  = activate_concept (controller_view h c) nm s
  /\ c_concepts (snd (ctl_activate_concept h c nm s)) = c_concepts c
  /\ length (fst (ctl_activate_concept h c nm s)) = length h.
Proof.
  intros R N. unfold ctl_activate_concept, activate_concept.
  cbn [concepts controller_view]. rewrite dict_get_resolve.
  destruct (dict_get nm (c_concepts c)) as [r|] eqn:G; cbn [option_map fst snd];
    [|auto].
  pose proof (refs_in_get h _ nm r R G) as L.
  unfold controller_view, set_active, set_concepts.
  destruct s as [x|];
    cbn [strategy alpha beta normalize concepts active_concepts].
  - destruct (mem nm (c_active c)); cbn [fst snd];
      (split; [|split; [reflexivity | apply length_update]]);
      cbn [c_strategy c_alpha c_beta c_normalize c_concepts c_active
           set_c_active];
      now rewrite (resolve_update r _ h _ nm N G L).
  - destruct (mem nm (c_active c)); cbn [fst snd]; auto.
Qed.

Lemma activate_each_view (reqs : list (string * A))
    (h : list (ConceptVector A)) (c : ControllerRefs A) :
  refs_in h (c_concepts c) -> NoDup (map snd (c_concepts c)) ->
  controller_view (fst (activate_each reqs h c)) (snd (activate_each reqs h c))
  = activate_all reqs (controller_view h c)
  /\ c_concepts (snd (activate_each reqs h c)) = c_concepts c
  /\ length (fst (activate_each reqs h c)) = length h.
Proof.
  revert h c. induction reqs as [|[nm s] reqs IH]; intros h c R N;
    [now cbn|].
  cbn [activate_each activate_all].
  destruct (ctl_activate_concept_view h c nm (Some s) R N) as [V [K L]].
  destruct (ctl_activate_concept h c nm (Some s)) as [h' c'] eqn:E.
  cbn [fst snd] in *.
  assert (R' : refs_in h' (c_concepts c')).
  { rewrite K. unfold refs_in in *. eapply Forall_impl; [|exact R].
    intros kr Lr. cbv beta in *. now rewrite L. }
  assert (N' : NoDup (map snd (c_concepts c'))) by now rewrite K.
  destruct (IH h' c' R' N') as [V' [K' L']].
  rewrite V', V, K', K, L', L. auto.
Qed.

(** The names that a run of [activate_concept] calls leaves active. *)
Lemma activate_all_active (reqs : list (string * A))
    (c : SteeringController A) (nm : string) :
  (In nm (active_concepts (activate_all reqs c))
   <-> In nm (active_concepts c)
       \/ (In nm (map fst reqs) /\ dict_mem nm (concepts c) = true))
  /\ dict_keys (concepts (activate_all reqs c)) = dict_keys (concepts c).
Proof.
  revert c. induction reqs as [|[k s] reqs IH]; intros c.
  - cbn. split; [|reflexivity]. tauto.
  - cbn [activate_all map fst].
    destruct (IH (activate_concept c k (Some s))) as [I K].
    assert (Ek : dict_keys (concepts (activate_concept c k (Some s)))
                 = dict_keys (concepts c)
                 /\ forall x, In x (active_concepts
                                      (activate_concept c k (Some s)))
                              <-> In x (active_concepts c)
                                  \/ (x = k /\ dict_mem k (concepts c) = true)).
    { unfold activate_concept, dict_mem.
      destruct (dict_get k (concepts c)) as [cv|] eqn:G.
      - cbn [active_concepts concepts set_concepts].
        assert (M : dict_mem k (concepts c) = true)
          by (unfold dict_mem; now rewrite G).
        destruct (mem k (active_concepts c)) eqn:Em;
          cbn [active_concepts concepts set_concepts set_active];
          rewrite dict_keys_set, M; (split; [reflexivity|]); intros x.
        + apply mem_In in Em. split; [tauto|]. intros [I'|[-> _]]; auto.
        + rewrite in_app_iff. simpl. split.
          * intros [I'|[<-|[]]]; auto.
          * intros [I'|[-> _]]; auto.
      - split; [reflexivity|]. intros x. split; [tauto|].
        intros [I'|[_ Q]]; [exact I' | discriminate Q]. }
    destruct Ek as [Ek Ea]. split; [|now rewrite K, Ek].
    rewrite I, Ea.
    assert (Mk : dict_mem nm (concepts (activate_concept c k (Some s)))
                 = dict_mem nm (concepts c)).
    { destruct (dict_mem nm (concepts c)) eqn:M.
      - apply dict_mem_In. rewrite Ek. now apply dict_mem_In.
      - destruct (dict_mem nm (concepts (activate_concept c k (Some s))))
          eqn:M'; [|reflexivity].
        apply dict_mem_In in M'. rewrite Ek in M'.
        apply dict_mem_In in M'. congruence. }
    rewrite Mk. simpl. split.
    + intros [[I'|[-> M]]|[I' M]]; auto.
    + intros [I'|[[<-|I'] M]]; auto.
Qed.
End CoreFacts.

Section CoreTheorems.
Context {A : Type} `{Scalar A}.

Lemma lookup_app (h l : list (ConceptVector A)) (d : dict nat) (k : string) :
  refs_in h d -> lookup (h ++ l) d k = lookup h d k.
Proof.
  intros R. unfold lookup. destruct (dict_get k d) as [r|] eqn:G;
    [|reflexivity].
  apply nth_error_app1. now apply (refs_in_get h d k r).
Qed.

Lemma lookup_set_last (h : list (ConceptVector A)) (d : dict nat)
    (nm : string) (o : ConceptVector A) :
  lookup (h ++ [o]) (dict_set nm (length h) d) nm = Some o.
Proof.
  unfold lookup. rewrite dict_get_set_same, nth_error_app2, Nat.sub_diag by lia.
  reflexivity.
Qed.

Lemma lookup_set_other (h : list (ConceptVector A)) (d : dict nat)
    (nm k : string) (r : nat) :
  k <> nm -> lookup h (dict_set nm r d) k = lookup h d k.
Proof. intros N. unfold lookup. now rewrite dict_get_set_other. Qed.

Lemma keys_set_mem (d : dict nat) (nm : string) (r : nat) :
  dict_keys (dict_set nm r d)
  = if mem nm (dict_keys d) then dict_keys d else dict_keys d ++ [nm].
Proof.
  rewrite dict_keys_set. destruct (dict_mem nm d) eqn:E.
  - apply dict_mem_In, mem_In in E. now rewrite E.
  - destruct (mem nm (dict_keys d)) eqn:M; [|reflexivity].
    apply mem_In, dict_mem_In in M. congruence.
Qed.

Lemma refs_in_last (h : list (ConceptVector A)) (d : dict nat) (nm : string)
    (o : ConceptVector A) :
  refs_in h d -> refs_in (h ++ [o]) (dict_set nm (length h) d).
Proof.
  intros R. apply refs_in_set; [now apply refs_in_app|].
  rewrite length_app. simpl. lia.
Qed.

Lemma NoesisEngine_add_concept_ok (e : NoesisEngine A) (nm : string)
    (v : ndarray A) (s : A) :
  store_ok e -> store_ok (NoesisEngine_add_concept e nm v s).
Proof.
  intros [Rl Rc]. unfold NoesisEngine_add_concept.
  destruct (steering_controller e) as [c|] eqn:Ec.
  - destruct Rc as [Rc Nc]. rewrite ctl_add_concept_last.
    split; [now apply refs_in_last|].
    cbn [objects steering_controller c_concepts set_c_concepts name].
    split; [now apply refs_in_last | now apply NoDup_refs_set_last].
  - split; [now apply refs_in_last | exact I].
Qed.

Lemma load_defaults_ok (randn : nat -> ndarray A) (names : list string) :
  forall (k : nat) (e : NoesisEngine A),
    store_ok e -> store_ok (load_defaults randn k names e).
Proof.
  induction names as [|nm rest IH]; intros k e K; [exact K|].
  cbn [load_defaults]. apply IH. now apply NoesisEngine_add_concept_ok.
Qed.

(** X20: [NoesisEngine.add_concept] makes one object and registers it in the
    library and, when there is a controller, in the controller, both under
    its name.  The controller normalises that object's vector, so the
    library's [get_concept] then returns the normalised vector too; without
    a controller the library holds the vector as given.  The controller's
    catalog changes as by its own [add_concept] on values, every other name
    reads as before, and the list of available names keeps its order (a new
    name last). *)
Theorem NoesisEngine_add_concept_shares (e : NoesisEngine A) (nm : string)
    (v : ndarray A) (s : A) :
  store_ok e ->
  store_ok (NoesisEngine_add_concept e nm v s)
  /\ get_available_concepts (NoesisEngine_add_concept e nm v s)
     = (if mem nm (get_available_concepts e) then get_available_concepts e
        else get_available_concepts e ++ [nm])
  /\ (forall k, k <> nm ->
      lookup (objects (NoesisEngine_add_concept e nm v s))
        (library_concepts (NoesisEngine_add_concept e nm v s)) k
      = lookup (objects e) (library_concepts e) k)
  /\ (forall c, steering_controller e = Some c ->
      exists c',
        steering_controller (NoesisEngine_add_concept e nm v s) = Some c'
        /\ lookup (objects (NoesisEngine_add_concept e nm v s))
             (library_concepts (NoesisEngine_add_concept e nm v s)) nm
           = Some (mk_ConceptVector nm (normalized v) s [])
        /\ dict_get nm (c_concepts c')
           = dict_get nm (library_concepts (NoesisEngine_add_concept e nm v s))
        /\ controller_view (objects (NoesisEngine_add_concept e nm v s)) c'
           = add_concept (controller_view (objects e) c)
               (mk_ConceptVector nm v s []))
  /\ (steering_controller e = None ->
      steering_controller (NoesisEngine_add_concept e nm v s) = None
      /\ lookup (objects (NoesisEngine_add_concept e nm v s))
           (library_concepts (NoesisEngine_add_concept e nm v s)) nm
         = Some (mk_ConceptVector nm v s [])).
Proof.
  intros [Rl Rc]. unfold NoesisEngine_add_concept, get_available_concepts.
  destruct (steering_controller e) as [c|] eqn:Ec.
  - destruct Rc as [Rc Nc]. rewrite ctl_add_concept_last.
    cbn [objects library_concepts steering_controller name vector set_vector
         strength metadata].
    split; [|split; [apply keys_set_mem|split; [|split]]].
    + split; [now apply refs_in_last|].
      cbn [steering_controller c_concepts set_c_concepts].
      split; [now apply refs_in_last | now apply NoDup_refs_set_last].
    + intros k N. rewrite lookup_set_other by exact N. now apply lookup_app.
    + intros c0 [= <-]. eexists. split; [reflexivity|].
      split; [apply lookup_set_last|].
      split; [cbn [c_concepts set_c_concepts]; now rewrite !dict_get_set_same|].
      now apply (ctl_add_concept_view (objects e) c
                   (mk_ConceptVector nm v s [])).
    + discriminate.
  - cbn [objects library_concepts steering_controller].
    split; [|split; [apply keys_set_mem|split; [|split]]].
    + split; [now apply refs_in_last|]. cbn [steering_controller]. exact I.
    + intros k N. rewrite lookup_set_other by exact N. now apply lookup_app.
    + discriminate.
    + intros _. split; [reflexivity | apply lookup_set_last].
Qed.

Lemma with_controller_some (e : NoesisEngine A) (c : ControllerRefs A)
    (f : list (ConceptVector A) -> ControllerRefs A ->
         list (ConceptVector A) * ControllerRefs A) :
  steering_controller e = Some c ->
  with_controller e f
  = mk_NoesisEngine (engine_config e) (fst (f (objects e) c))
      (thinking_layer e) (Some (snd (f (objects e) c))) (library_path e)
      (library_concepts e).
Proof.
  intros E. unfold with_controller. rewrite E.
  now destruct (f (objects e) c).
Qed.

(** [generate] on an engine with a controller: one run of
    [activate_concept] calls, then [deactivate_all]. *)
Lemma generate_with_controller (think : string -> ThoughtResult A)
    (e : NoesisEngine A) (prompt : string) (concepts : option (list string))
    (strengths : option (dict A)) (c : ControllerRefs A) :
  steering_controller e = Some c ->
  generate think e prompt concepts strengths
  = (mk_NoesisEngine (engine_config e)
       (fst (activate_each (requests think e prompt concepts strengths)
               (objects e) c))
       (thinking_layer e)
       (Some (ctl_deactivate_all
                (snd (activate_each
                        (requests think e prompt concepts strengths)
                        (objects e) c))))
       (library_path e) (library_concepts e),
     mk_GenerationResult
       (if thinking_layer e then enhanced_prompt (think prompt) else prompt)
       (if thinking_layer e then Some (think prompt) else None)
       (c_active (snd (activate_each
                         (requests think e prompt concepts strengths)
                         (objects e) c)))).
Proof.
  intros Ec. destruct e as [cfg h tl sc lp lc]. simpl in Ec. subst sc.
  unfold generate, requests, with_controller.
  cbn [thinking_layer steering_controller objects engine_config library_path
       library_concepts].
  destruct (given concepts) as [|nm l]; destruct tl;
    cbn [steering_controller objects engine_config thinking_layer
         library_path library_concepts activate_each fst snd];
    try reflexivity;
    match goal with
    | |- context [activate_each ?q h c] =>
        destruct (activate_each q h c) as [h' c'];
        cbn [steering_controller objects engine_config thinking_layer
             library_path library_concepts fst snd];
        reflexivity
    end.
Qed.

(** X21: [generate] on an engine with a controller activates the requested
    names (those of the thought when no names are given, else the given
    names with their strengths or 0.5) as a run of [activate_concept] calls
    on values does, reports the names active after that, and leaves nothing
    active.  So the reported names are those that were active before and the
    requested names that are in the catalog; the others are dropped
    silently.  The library's dictionary is untouched.  Without a controller
    the engine is unchanged and nothing is reported. *)
Theorem generate_spec (think : string -> ThoughtResult A)
    (e : NoesisEngine A) (prompt : string) (cs : option (list string))
    (strengths : option (dict A)) :
  store_ok e ->
  store_ok (fst (generate think e prompt cs strengths))
  /\ library_concepts (fst (generate think e prompt cs strengths))
     = library_concepts e
  /\ prompt_used (snd (generate think e prompt cs strengths))
     = (if thinking_layer e then enhanced_prompt (think prompt) else prompt)
  /\ (forall c, steering_controller e = Some c ->
      exists c',
        steering_controller (fst (generate think e prompt cs strengths))
        = Some c'
        /\ c_active c' = []
        /\ controller_view
             (objects (fst (generate think e prompt cs strengths))) c'
           = deactivate_all
               (activate_all (requests think e prompt cs strengths)
                  (controller_view (objects e) c))
        /\ concepts_applied (snd (generate think e prompt cs strengths))
           = active_concepts
               (activate_all (requests think e prompt cs strengths)
                  (controller_view (objects e) c))
        /\ forall nm,
             In nm (concepts_applied
                      (snd (generate think e prompt cs strengths)))
             <-> In nm (c_active c)
                 \/ (In nm (map fst
                              (requests think e prompt cs strengths))
                     /\ dict_mem nm (c_concepts c) = true))
  /\ (steering_controller e = None ->
      fst (generate think e prompt cs strengths) = e
      /\ concepts_applied (snd (generate think e prompt cs strengths))
         = []).
Proof.
  intros [Rl Rc]. destruct (steering_controller e) as [c|] eqn:Ec.
  - destruct Rc as [Rc Nc].
    rewrite (generate_with_controller think e prompt cs strengths c Ec).
    set (reqs := requests think e prompt cs strengths).
    destruct (activate_each_view reqs (objects e) c Rc Nc) as [V [K L]].
    cbn [fst snd objects library_concepts steering_controller prompt_used
         concepts_applied].
    assert (Rs : forall d, refs_in (objects e) d ->
                   refs_in (fst (activate_each reqs (objects e) c)) d).
    { intros d R. unfold refs_in in *. eapply Forall_impl; [|exact R].
      intros kr Lr. cbv beta in *. now rewrite L. }
    split; [|split; [reflexivity|split; [reflexivity|split]]].
    + split; [now apply Rs|]. cbn [steering_controller].
      unfold ctl_deactivate_all. cbn [c_concepts set_c_active]. rewrite K.
      split; [now apply Rs | exact Nc].
    + intros c0 [= <-]. eexists. split; [reflexivity|].
      split; [reflexivity|].
      assert (Va : c_active (snd (activate_each reqs (objects e) c))
                   = active_concepts (activate_all reqs
                                        (controller_view (objects e) c)))
        by now rewrite <- V.
      split; [|split; [exact Va|]].
      * rewrite <- V. reflexivity.
      * intros nm. rewrite Va.
        destruct (activate_all_active reqs (controller_view (objects e) c) nm)
          as [Ia _].
        rewrite Ia. cbn [active_concepts concepts controller_view].
        assert (M : dict_mem nm (resolve (objects e) (c_concepts c))
                    = dict_mem nm (c_concepts c)).
        { unfold dict_mem. rewrite dict_get_resolve.
          now destruct (dict_get nm (c_concepts c)). }
        now rewrite M.
    + discriminate.
  - assert (G : generate think e prompt cs strengths
                = (e, mk_GenerationResult
                        (if thinking_layer e
                         then enhanced_prompt (think prompt) else prompt)
                        (if thinking_layer e then Some (think prompt)
                         else None) [])).
    { unfold generate, with_controller. rewrite Ec.
      destruct (thinking_layer e); destruct (given cs);
        rewrite ?Ec; reflexivity. }
    rewrite G. cbn [fst snd prompt_used concepts_applied].
    split; [|split; [reflexivity|split; [reflexivity|split]]].
    + split; [exact Rl|]. now rewrite Ec.
    + discriminate.
    + auto.
Qed.

(** X22: a strength that [generate] passes for a given name is written into
    the object itself: when the library and the controller hold one object
    under the name, the library's [get_concept] afterwards shows that
    strength (0.5 when none was given for the name), with the vector as it
    was, although nothing is active any more. *)
Theorem generate_strength_shared (think : string -> ThoughtResult A)
    (e : NoesisEngine A) (prompt : string) (nm : string)
    (strengths : option (dict A)) (c : ControllerRefs A) (r : nat)
    (cv : ConceptVector A) :
  steering_controller e = Some c ->
  dict_get nm (c_concepts c) = Some r ->
  dict_get nm (library_concepts e) = Some r ->
  nth_error (objects e) r = Some cv ->
  lookup (objects (fst (generate think e prompt (Some [nm]) strengths)))
    (library_concepts (fst (generate think e prompt (Some [nm]) strengths)))
    nm
  = Some (set_strength cv (strength_for strengths nm)).
Proof.
  intros Ec Gc Gl Ho.
  rewrite (generate_with_controller think e prompt (Some [nm]) strengths c Ec).
  cbn [fst objects library_concepts]. unfold requests.
  cbn [given map activate_each]. unfold ctl_activate_concept. rewrite Gc.
  cbn [fst]. unfold lookup. rewrite Gl, nth_error_update_same, Ho.
  reflexivity.
Qed.
End CoreTheorems.

Section CoreInit.
Context {A : Type} `{Scalar A}.

Lemma ConceptLibrary_init_missing (fs : filesystem A) (p : option string) :
  (forall q, p = Some q -> dict_mem q fs = false) ->
  ConceptLibrary_init fs p = Ok (mk_ConceptLibrary p []).
Proof.
  intros M. unfold ConceptLibrary_init.
  now rewrite (path_exists_missing fs p M).
Qed.

(** The engine that the constructor builds when no library file exists. *)
Lemma NoesisEngine_init_missing (fs : filesystem A)
    (randn : nat -> ndarray A) (cfg : NoesisConfig A)
    (ctl : option (ControllerRefs A)) :
  (forall q, concept_library_path cfg = Some q -> dict_mem q fs = false) ->
  (if enable_steering cfg
   then exists st, SteeringStrategy_of_value (steering_strategy cfg) = Ok st
                   /\ ctl = Some (mk_ControllerRefs st (steering_alpha cfg)
                                    (steering_beta cfg) true [] [])
   else ctl = None) ->
  NoesisEngine_init fs randn cfg
  = Ok (load_defaults randn 0 default_names
          (mk_NoesisEngine cfg [] (enable_thinking cfg) ctl
             (concept_library_path cfg) [])).
Proof.
  intros M C. unfold NoesisEngine_init.
  rewrite (ConceptLibrary_init_missing fs _ M).
  destruct (enable_steering cfg).
  - destruct C as [st [E ->]]. rewrite E. reflexivity.
  - subst ctl. reflexivity.
Qed.

(** X23: the constructor raises ValueError when steering is enabled with a
    strategy name that is none of the three, before it looks at the library
    file.  Otherwise, when no library file exists, it builds an engine whose
    available concepts are the eight default names in order, each with
    strength 0.5 and the [k]-th drawn vector, normalised when there is a
    controller and as drawn when there is none; the controller, when there
    is one, holds the same objects as the library, has nothing active and
    renormalises. *)
Theorem NoesisEngine_init_spec (fs : filesystem A)
    (randn : nat -> ndarray A) (cfg : NoesisConfig A) :
  (enable_steering cfg = true ->
   ~ In (steering_strategy cfg) ["additive"; "projection"; "hspace"]%string ->
   NoesisEngine_init fs randn cfg = Raise ValueError)
  /\ ((forall q, concept_library_path cfg = Some q -> dict_mem q fs = false) ->
      (enable_steering cfg = false
       \/ In (steering_strategy cfg)
            ["additive"; "projection"; "hspace"]%string) ->
      exists e,
        NoesisEngine_init fs randn cfg = Ok e
        /\ store_ok e
        /\ get_available_concepts e = default_names
        /\ (forall k, k < 8 ->
            lookup (objects e) (library_concepts e) (nth k default_names EmptyString)
            = Some (mk_ConceptVector (nth k default_names EmptyString)
                      (if enable_steering cfg
                       then normalized (randn k) else randn k)
                      half []))
        /\ (if enable_steering cfg
            then exists c, steering_controller e = Some c
                           /\ c_concepts c = library_concepts e
                           /\ c_active c = [] /\ c_normalize c = true
                           /\ SteeringStrategy_of_value (steering_strategy cfg)
                              = Ok (c_strategy c)
            else steering_controller e = None)).
Proof.
  split.
  - intros Es N. unfold NoesisEngine_init.
    now rewrite Es, (of_value_unknown _ N).
  - intros M C.
    destruct (enable_steering cfg) eqn:Es.
    + destruct C as [C|C]; [discriminate|].
      assert (V : exists st, SteeringStrategy_of_value (steering_strategy cfg)
                             = Ok st).
      { destruct C as [<-|[<-|[<-|[]]]]; eexists; reflexivity. }
      destruct V as [st V]. eexists.
      split.
      { apply (NoesisEngine_init_missing fs randn cfg
                 (Some (mk_ControllerRefs st (steering_alpha cfg)
                          (steering_beta cfg) true [] [])) M).
        rewrite Es. exists st. split; [exact V | reflexivity]. }
      split.
      { apply load_defaults_ok. split; [constructor|].
        split; constructor. }
      split; [reflexivity|]. split.
      { intros k Lk.
        do 8 (destruct k as [|k]; [reflexivity|]). lia. }
      eexists. split; [reflexivity|]. repeat split. exact V.
    + eexists. split.
      { apply (NoesisEngine_init_missing fs randn cfg None M).
        now rewrite Es. }
      split.
      { apply load_defaults_ok. split; [constructor | exact I]. }
      split; [reflexivity|]. split; [|reflexivity].
      intros k Lk. do 8 (destruct k as [|k]; [reflexivity|]). lia.
Qed.
End CoreInit.

(** ** The engine of [core.py] on concrete inputs *)

Lemma demo_noesis_ok : store_ok demo_noesis.
Proof.
  apply load_defaults_ok. split; [constructor|]. split; constructor.
Qed.

Lemma NoesisEngine_add_concept_shares_witness :
  lookup
    (objects (NoesisEngine_add_concept demo_noesis "bold"
                (vec [3; 4]%float) 1%float))
    (library_concepts (NoesisEngine_add_concept demo_noesis "bold"
                         (vec [3; 4]%float) 1%float)) "bold"
  = Some (mk_ConceptVector "bold" (normalized (vec [3; 4]%float)) 1%float [])
  /\ get_available_concepts
       (NoesisEngine_add_concept demo_noesis "bold" (vec [3; 4]%float) 1%float)
     = default_names ++ ["bold"%string].
Proof.
  destruct (NoesisEngine_add_concept_shares demo_noesis "bold"
              (vec [3; 4]%float) 1%float demo_noesis_ok)
    as [_ [K [_ [C _]]]].
  destruct (C (mk_ControllerRefs ADDITIVE 10%float 2%float true
                 (library_concepts demo_noesis) []) eq_refl)
    as [c' [_ [L _]]].
  split; [exact L | exact K].
Defined.

Lemma generate_spec_witness :
  concepts_applied (snd (generate demo_think demo_noesis "logo" None None))
  = ["professional"%string]
  /\ library_concepts (fst (generate demo_think demo_noesis "logo" None None))
     = library_concepts demo_noesis.
Proof.
  destruct (generate_spec demo_think demo_noesis "logo" None None
              demo_noesis_ok) as [_ [L [_ [C _]]]].
  destruct (C (mk_ControllerRefs ADDITIVE 10%float 2%float true
                 (library_concepts demo_noesis) []) eq_refl)
    as [c' [_ [_ [_ [P _]]]]].
  split; [|exact L].
  rewrite P. vm_compute. reflexivity.
Defined.

Lemma generate_strength_shared_witness :
  lookup
    (objects (fst (generate demo_think demo_noesis "logo"
                     (Some ["modern"%string])
                     (Some [("modern"%string, 0.9%float)]))))
    (library_concepts
       (fst (generate demo_think demo_noesis "logo"
               (Some ["modern"%string])
               (Some [("modern"%string, 0.9%float)])))) "modern"
  = Some (mk_ConceptVector "modern" (normalized (vec [2; 4]%float))
            0.9%float []).
Proof.
  rewrite (generate_strength_shared demo_think demo_noesis "logo" "modern"
             (Some [("modern"%string, 0.9%float)])
             (mk_ControllerRefs ADDITIVE 10%float 2%float true
                (library_concepts demo_noesis) [])
             7
             (mk_ConceptVector "modern" (normalized (vec [2; 4]%float))
                half []))
    by reflexivity.
  reflexivity.
Defined.

Lemma NoesisEngine_init_spec_witness :
  NoesisEngine_init [] demo_randn
    (mk_NoesisConfig true true "bad" 10%float 2%float None)
  = Raise ValueError
  /\ exists e, NoesisEngine_init [] demo_randn demo_config = Ok e
               /\ get_available_concepts e = default_names
               /\ lookup (objects e) (library_concepts e) "creativity"
                  = Some (mk_ConceptVector "creativity"
                            (normalized (vec [3; 4]%float)) half []).
Proof.
  split.
  - apply (proj1 (NoesisEngine_init_spec [] demo_randn
                    (mk_NoesisConfig true true "bad" 10%float 2%float None)));
      [reflexivity | simpl; intuition discriminate].
  - destruct (proj2 (NoesisEngine_init_spec [] demo_randn demo_config))
      as [e [I [_ [K [L _]]]]].
    + intros q Q. discriminate Q.
    + right. simpl. auto.
    + exists e. split; [exact I|]. split; [exact K|].
      exact (L 0 ltac:(lia)).
Defined.
